(** * The join protocol translator and stream adapters (lib/join)

    A shallow embedding of
      - lib/join/messages/messages.go  (the transport-independent messages),
      - lib/join/joinv1/messages.go    (the translator, the server-side and
                                        the client-side stream adapters),
    followed by the properties checked against the specification. *)

From Stdlib Require Import List String Ascii ZArith Bool Lia.
From Stdlib.Strings Require Import Byte.
Import ListNotations.
Local Open Scope string_scope.
Local Open Scope list_scope.

(** ** Go values shared by the packages *)

(** A Go [[]byte]. *)
Definition bytes := list byte.

(** Go's [error].  The constructors are the errors the adapters create or
    inspect: [io.EOF], the two context errors, [trace.BadParameter], an
    error of the transport, and an error that went through [trace.Wrap]
    (with the user messages given to it). *)
Inductive error : Type :=
| io_EOF
| context_Canceled
| context_DeadlineExceeded
| BadParameterError (message : string)
| TransportError (message : string)
| TraceErr (wrapped : error) (userMessages : list string).

(** The result of a Go function returning [(T, error)]. *)
Inductive result (A : Type) : Type :=
| Ok (a : A)
| Err (e : error).
Arguments Ok {A} a.
Arguments Err {A} e.

(** [trace.Wrap(err, args...)]: nil stays nil; any other error is wrapped,
    with the user messages of the call.  The model records one layer for
    each call and leaves the captured stack out. *)
Definition trace_Wrap (err : option error) (args : list string) : option error :=
  match err with
  | None => None
  | Some e => Some (TraceErr e args)
  end.

(** [trace.BadParameter(format, arg)] with one [%T] verb, already expanded. *)
Definition trace_BadParameter (prefix typeName : string) : error :=
  TraceErr (BadParameterError (prefix ++ typeName)%string) [].


Definition error_tag_eqb (a b : error) : bool :=
  match a, b with
  | io_EOF, io_EOF => true
  | context_Canceled, context_Canceled => true
  | context_DeadlineExceeded, context_DeadlineExceeded => true
  | _, _ => false
  end.

(** [errors.Is(err, target)] for a sentinel [target]: walks the chain of
    wrapped errors; a nil [err] matches nothing. *)
Fixpoint errors_Is_chain (e target : error) : bool :=
  match e with
  | TraceErr w _ => errors_Is_chain w target
  | _ => error_tag_eqb e target
  end.

Definition errors_Is (err : option error) (target : error) : bool :=
  match err with
  | None => false
  | Some e => errors_Is_chain e target
  end.

(** ** Package messages (lib/join/messages/messages.go) *)

Module messages.

(** [time.Time] as seconds and nanoseconds since the Unix epoch. *)
Record Time : Type := mkTime { unixSec : Z; unixNsec : Z }.

Record ProxySuppliedParameters : Type := mkProxySuppliedParameters {
  RemoteAddr : string;
  ClientVersion : string
}.

Record ClientInit : Type := mkClientInit {
  ClientInit_JoinMethod : string;
  TokenName : string;
  NodeName : string;
  Role : string;
  AdditionalPrincipals : list string;
  DNSNames : list string;
  PublicTLSKey : bytes;
  PublicSSHKey : bytes;
  Expires : Time;
  ClientInit_ProxySuppliedParameters : option ProxySuppliedParameters
}.

Record ServerInit : Type := mkServerInit {
  ServerInit_JoinMethod : string
}.

Record Result : Type := mkResult {
  TLSCert : bytes;
  TLSCACerts : list bytes;
  SSHCert : bytes;
  SSHCAKeys : list bytes;
  HostID : string
}.

(** A value of the interface [Request]: nil, a [*ClientInit], or a value
    of another type that has the marker method (named by its Go type). *)
Inductive Request : Type :=
| Request_nil
| Request_ClientInit (msg : ClientInit)
| Request_other (typeName : string).

(** A value of the interface [Response]: nil, a [*ServerInit], a
    [*Result], or a value of another type that has the marker method. *)
Inductive Response : Type :=
| Response_nil
| Response_ServerInit (msg : ServerInit)
| Response_Result (msg : Result)
| Response_other (typeName : string).

End messages.

(** ** The generated wire messages (api/gen/proto/go/teleport/join/v1) *)

Module pb.

(** Modelled from the spec: the generated type [timestamppb.Timestamp]
    is not part of the sources; it carries seconds and nanoseconds. *)
Record Timestamp : Type := mkTimestamp { Seconds : Z; Nanos : Z }.

(** Modelled from the spec: the generated type
    [joinv1.ClientInit_ProxySuppliedParams] is not part of the sources;
    the fields are the ones convertClientInitToMessage reads. *)
Record ProxySuppliedParams : Type := mkProxySuppliedParams {
  RemoteAddr : string;
  ClientVersion : string
}.

(** Modelled from the spec: the generated type [joinv1.ClientInit] is not
    part of the sources; the fields are the ones
    convertClientInitToMessage reads.  [JoinMethod] is read through its
    getter, so it is an optional field; [Expires] and
    [ProxySuppliedParameters] are pointers to messages. *)
Record ClientInit : Type := mkClientInit {
  JoinMethod : option string;
  TokenName : string;
  NodeName : string;
  Role : string;
  AdditionalPrincipals : list string;
  DnsNames : list string;
  PublicTlsKey : bytes;
  PublicSshKey : bytes;
  Expires : option Timestamp;
  ProxySuppliedParameters : option ProxySuppliedParams
}.

(** Modelled from the spec: the generated oneof [isJoinRequest_Payload]
    is not part of the sources.  A payload is unset (nil), the
    [*JoinRequest_ClientInit] wrapper, or the wrapper of another variant
    of the oneof, named by its Go type. *)
Inductive isJoinRequest_Payload : Type :=
| Payload_nil
| JoinRequest_ClientInit (clientInit : ClientInit)
| JoinRequest_other (typeName : string).

(** Modelled from the spec: the generated type [joinv1.JoinRequest]. *)
Record JoinRequest : Type := mkJoinRequest {
  JoinRequest_Payload : isJoinRequest_Payload
}.

(** Modelled from the spec: the generated type [joinv1.ServerInit]. *)
Record ServerInit : Type := mkServerInit {
  ServerInit_JoinMethod : string
}.

(** Modelled from the spec: the generated type [joinv1.Result]; the
    fields are the ones convertResultFromMessage writes. *)
Record Result : Type := mkResult {
  TlsCert : bytes;
  TlsCaCerts : list bytes;
  SshCert : bytes;
  SshCaKeys : list bytes;
  HostId : string
}.

(** Modelled from the spec: the generated oneof [isJoinResponse_Payload],
    with the two wrappers convertResponseFromMessage builds. *)
Inductive isJoinResponse_Payload : Type :=
| JoinResponse_Init (init : ServerInit)
| JoinResponse_Result (res : Result).

(** Modelled from the spec: the generated type [joinv1.JoinResponse]. *)
Record JoinResponse : Type := mkJoinResponse {
  JoinResponse_Payload : isJoinResponse_Payload
}.

(** The generated getters are nil-safe: on a nil receiver, or an unset
    field, they return the zero value. *)
Definition GetPayload (req : option JoinRequest) : isJoinRequest_Payload :=
  match req with
  | None => Payload_nil
  | Some r => JoinRequest_Payload r
  end.

Definition GetJoinMethod (req : ClientInit) : string :=
  match JoinMethod req with
  | None => ""
  | Some m => m
  end.

Definition GetExpires (req : ClientInit) : option Timestamp := Expires req.

Definition GetProxySuppliedParameters (req : ClientInit)
  : option ProxySuppliedParams := ProxySuppliedParameters req.

Definition billion : Z := 1000000000%Z.

(** A Go [int64] result, wrapped around. *)
Definition int64 (z : Z) : Z := ((z + 2 ^ 63) mod 2 ^ 64 - 2 ^ 63)%Z.

(** [time.Unix(sec, nsec)]: nanoseconds outside [0, 1e9) are carried
    into the seconds. *)
Definition time_Unix (sec nsec : Z) : messages.Time :=
  if ((nsec <? 0) || (billion <=? nsec))%Z then
    let n := Z.quot nsec billion in
    let sec := int64 (sec + n)%Z in
    let nsec := (nsec - n * billion)%Z in
    if (nsec <? 0)%Z
    then messages.mkTime (int64 (sec - 1)%Z) (nsec + billion)%Z
    else messages.mkTime sec nsec
  else messages.mkTime sec nsec.

(** The method AsTime of a Timestamp pointer; the getters it uses give 0 on nil. *)
Definition AsTime (x : option Timestamp) : messages.Time :=
  match x with
  | None => time_Unix 0%Z 0%Z
  | Some t => time_Unix (Seconds t) (Nanos t)
  end.

(** What the [%T] verb prints for a payload. *)
Definition payload_typeName (p : isJoinRequest_Payload) : string :=
  match p with
  | Payload_nil => "<nil>"
  | JoinRequest_ClientInit _ => "*joinv1.JoinRequest_ClientInit"
  | JoinRequest_other t => t
  end.

End pb.

(** ** Package joinv1: the translator (lib/join/joinv1/messages.go) *)

Definition convertClientInitToMessage (req : pb.ClientInit) : messages.ClientInit :=
  {| messages.ClientInit_JoinMethod := pb.GetJoinMethod req;
     messages.TokenName := pb.TokenName req;
     messages.NodeName := pb.NodeName req;
     messages.Role := pb.Role req;
     messages.AdditionalPrincipals := pb.AdditionalPrincipals req;
     messages.DNSNames := pb.DnsNames req;
     messages.PublicTLSKey := pb.PublicTlsKey req;
     messages.PublicSSHKey := pb.PublicSshKey req;
     messages.Expires := pb.AsTime (pb.GetExpires req);
     messages.ClientInit_ProxySuppliedParameters :=
       match pb.GetProxySuppliedParameters req with
       | Some proxySuppliedParams =>
           Some {| messages.RemoteAddr := pb.RemoteAddr proxySuppliedParams;
                   messages.ClientVersion := pb.ClientVersion proxySuppliedParams |}
       | None => None
       end |}.

Definition convertRequestToMessage (req : option pb.JoinRequest)
  : result messages.Request :=
  match pb.GetPayload req with
  | pb.JoinRequest_ClientInit clientInit =>
      Ok (messages.Request_ClientInit (convertClientInitToMessage clientInit))
  | msg =>
      Err (trace_BadParameter "unrecognized join request message type "
             (pb.payload_typeName msg))
  end.

Definition convertServerInitFromMessage (msg : messages.ServerInit) : pb.ServerInit :=
  {| pb.ServerInit_JoinMethod := messages.ServerInit_JoinMethod msg |}.

Definition convertResultFromMessage (msg : messages.Result) : pb.Result :=
  {| pb.TlsCert := messages.TLSCert msg;
     pb.TlsCaCerts := messages.TLSCACerts msg;
     pb.SshCert := messages.TLSCert msg;
     pb.SshCaKeys := messages.SSHCAKeys msg;
     pb.HostId := messages.HostID msg |}.

(** What the [%T] verb prints for a response. *)
Definition response_typeName (resp : messages.Response) : string :=
  match resp with
  | messages.Response_nil => "<nil>"
  | messages.Response_ServerInit _ => "*messages.ServerInit"
  | messages.Response_Result _ => "*messages.Result"
  | messages.Response_other t => t
  end.

Definition convertResponseFromMessage (resp : messages.Response)
  : result pb.JoinResponse :=
  match resp with
  | messages.Response_ServerInit msg =>
      Ok {| pb.JoinResponse_Payload :=
              pb.JoinResponse_Init (convertServerInitFromMessage msg) |}
  | messages.Response_Result msg =>
      Ok {| pb.JoinResponse_Payload :=
              pb.JoinResponse_Result (convertResultFromMessage msg) |}
  | msg =>
      Err (trace_BadParameter "unrecognized join response message type "
             (response_typeName msg))
  end.

(** The variants the translator knows. *)
Definition is_ClientInit_payload (p : pb.isJoinRequest_Payload) : bool :=
  match p with pb.JoinRequest_ClientInit _ => true | _ => false end.

Definition is_ServerInit (resp : messages.Response) : bool :=
  match resp with messages.Response_ServerInit _ => true | _ => false end.

Definition is_Result (resp : messages.Response) : bool :=
  match resp with messages.Response_Result _ => true | _ => false end.

(** ** Channels, contexts and select *)

(** What a receive on a Go channel finds: nothing yet, a value, or the
    channel closed (the receive then yields [ok = false]). *)
Inductive chan_state (A : Type) : Type :=
| ChanNotReady
| ChanValue (a : A)
| ChanClosed.
Arguments ChanNotReady {A}.
Arguments ChanValue {A} a.
Arguments ChanClosed {A}.

(** The communication a receive case can make now: [Some (Some a)] is a
    value, [Some None] is the closed channel, [None] is not ready. *)
Definition recv_case {A} (c : chan_state A) : option (option A) :=
  match c with
  | ChanNotReady => None
  | ChanValue a => Some (Some a)
  | ChanClosed => Some None
  end.

(** The communication a send case can make now: ready when the peer is
    receiving on the (unbuffered) channel. *)
Definition send_case (receiverReady : bool) : option unit :=
  if receiverReady then Some tt else None.

Inductive select_outcome (A : Type) : Type :=
| SelBlocked
| SelDone (ctxErr : error)
| SelComm (a : A).
Arguments SelBlocked {A}.
Arguments SelDone {A} ctxErr.
Arguments SelComm {A} a.

(** Go's [select] over [<-ctx.Done()] and one channel operation.  [ctxErr]
    is [ctx.Err()], non-nil exactly when [ctx.Done()] is closed.  With no
    case ready the select blocks; with one ready it takes it; with both
    ready the runtime picks one, here by [coin]. *)
Definition go_select {A} (ctxErr : option error) (comm : option A) (coin : bool)
  : select_outcome A :=
  match ctxErr, comm with
  | None, None => SelBlocked
  | Some e, None => SelDone e
  | None, Some a => SelComm a
  | Some e, Some a => if coin then SelDone e else SelComm a
  end.

(** ** The server-side stream adapter (lib/join/joinv1/messages.go) *)

(** A channel made by [make(chan T)], named by its place in Join. *)
Inductive chan_handle : Type := requests_chan | responses_chan.

(** The interface [Service].  Its one method blocks on the two channels
    until the business logic is finished; the adapter uses of a call only
    the error it returns. *)
Record Service : Type := mkService {
  Service_Join : option error -> chan_handle -> chan_handle -> option error
}.

(** The struct [server]; the interface field [service] may be nil. *)
Record server : Type := mkServer {
  service : option Service
}.

(** A [grpc.ServiceRegistrar], as the servers registered on it (latest
    first). *)
Definition ServiceRegistrar := list server.

(** The generated [joinv1.RegisterJoinServiceServer]. *)
Definition pb_RegisterJoinServiceServer (s : ServiceRegistrar) (srv : server)
  : ServiceRegistrar := srv :: s.

Definition RegisterJoinServiceServer (s : ServiceRegistrar)
  : ServiceRegistrar * option error :=
  (pb_RegisterJoinServiceServer s {| service := None |}, None).

(** How a goroutine's function ends. *)
Inductive task_outcome : Type :=
| Returned (err : option error)
| Panicked (reason : string).

(** The first task of Join: [trace.Wrap(s.service.Join(ctx, requests,
    responses))].  A method call on a nil interface value panics. *)
Definition business_task (s : server) (ctxErr : option error) : task_outcome :=
  match service s with
  | None => Panicked "invalid memory address or nil pointer dereference"
  | Some svc =>
      Returned (trace_Wrap (Service_Join svc ctxErr requests_chan responses_chan) [])
  end.

(** What surrounds the reader and the writer at one moment. *)
Record server_env : Type := mkServerEnv {
  (** what [stream.Recv()] returns, [None] while nothing has arrived *)
  stream_Recv : option (option pb.JoinRequest * option error);
  (** what [stream.Send(msg)] returns *)
  stream_Send : option error;
  (** [ctx.Err()] of the group's context *)
  ctx_Err : option error;
  (** the business logic is receiving on [requests] *)
  requests_receiving : bool;
  (** what a receive on [responses] finds *)
  responses_state : chan_state messages.Response;
  (** the choice of a select with both cases ready *)
  coin : bool
}.

(** *** The read task *)

Inductive read_effect : Type :=
| SendOnRequests (msg : messages.Request)
| CloseRequests.

Inductive read_pc : Type :=
| ReadRecv
| ReadSelect (msg : messages.Request)
| ReadExited (err : option error).

(** One turn of the loop body, from the program point [pc]. *)
Definition read_body (pc : read_pc) (env : server_env)
  : read_pc * list read_effect :=
  match pc with
  | ReadRecv =>
      match stream_Recv env with
      | None => (ReadRecv, [])
      | Some (req, err) =>
          if errors_Is err io_EOF then (ReadExited None, [])
          else match err with
               | Some _ =>
                   (ReadExited (trace_Wrap err ["reading client request from stream"]), [])
               | None =>
                   match convertRequestToMessage req with
                   | Err err => (ReadExited (trace_Wrap (Some err) []), [])
                   | Ok msg => (ReadSelect msg, [])
                   end
               end
      end
  | ReadSelect msg =>
      match go_select (ctx_Err env) (send_case (requests_receiving env)) (coin env) with
      | SelBlocked => (ReadSelect msg, [])
      | SelDone e => (ReadExited (Some e), [])
      | SelComm _ => (ReadRecv, [SendOnRequests msg])
      end
  | ReadExited err => (ReadExited err, [])
  end.

Definition read_exited (pc : read_pc) : bool :=
  match pc with ReadExited _ => true | _ => false end.

(** [defer close(requests)]: runs when the function returns, on each
    return. *)
Definition read_step (pc : read_pc) (env : server_env)
  : read_pc * list read_effect :=
  let (pc', effects) := read_body pc env in
  if negb (read_exited pc) && read_exited pc'
  then (pc', effects ++ [CloseRequests])
  else (pc', effects).

Fixpoint read_run (pc : read_pc) (script : list server_env)
  : read_pc * list read_effect :=
  match script with
  | [] => (pc, [])
  | env :: rest =>
      let (pc', effects) := read_step pc env in
      let (pc'', effects') := read_run pc' rest in
      (pc'', effects ++ effects')
  end.

Definition read_task (script : list server_env) : read_pc * list read_effect :=
  read_run ReadRecv script.

(** *** The write task *)

(** The effects: a value received from [responses], the receive that found
    the channel closed ([ok = false]), and a call of [stream.Send] with
    what it returned. *)
Inductive write_effect : Type :=
| RecvFromResponses (resp : messages.Response)
| ResponsesClosed
| StreamSend (msg : pb.JoinResponse) (err : option error).

Inductive write_pc : Type :=
| WriteSelect
| WriteExited (err : option error).

Definition write_step (pc : write_pc) (env : server_env)
  : write_pc * list write_effect :=
  match pc with
  | WriteSelect =>
      match go_select (ctx_Err env) (recv_case (responses_state env)) (coin env) with
      | SelBlocked => (WriteSelect, [])
      | SelDone e => (WriteExited (Some e), [])
      | SelComm None => (WriteExited None, [ResponsesClosed])
      | SelComm (Some resp) =>
          match convertResponseFromMessage resp with
          | Err err =>
              (WriteExited (trace_Wrap (Some err) []), [RecvFromResponses resp])
          | Ok msg =>
              match stream_Send env with
              | Some err =>
                  (WriteExited
                     (trace_Wrap (Some err) ["sending server response to stream"]),
                   [RecvFromResponses resp; StreamSend msg (Some err)])
              | None =>
                  (WriteSelect, [RecvFromResponses resp; StreamSend msg None])
              end
          end
      end
  | WriteExited err => (WriteExited err, [])
  end.

Fixpoint write_run (pc : write_pc) (script : list server_env)
  : write_pc * list write_effect :=
  match script with
  | [] => (pc, [])
  | env :: rest =>
      let (pc', effects) := write_step pc env in
      let (pc'', effects') := write_run pc' rest in
      (pc'', effects ++ effects')
  end.

Definition write_task (script : list server_env) : write_pc * list write_effect :=
  write_run WriteSelect script.

(** The responses the writer took from the channel, and the wire messages
    whose [stream.Send] returned nil. *)
Fixpoint received (effects : list write_effect) : list messages.Response :=
  match effects with
  | [] => []
  | RecvFromResponses resp :: rest => resp :: received rest
  | _ :: rest => received rest
  end.

Fixpoint written (effects : list write_effect) : list pb.JoinResponse :=
  match effects with
  | [] => []
  | StreamSend msg None :: rest => msg :: written rest
  | _ :: rest => written rest
  end.

(** *** The error group (golang.org/x/sync/errgroup) *)

Inductive task_id : Type := BusinessTask | ReadTask | WriteTask.

Definition task_id_eqb (a b : task_id) : bool :=
  match a, b with
  | BusinessTask, BusinessTask => true
  | ReadTask, ReadTask => true
  | WriteTask, WriteTask => true
  | _, _ => false
  end.

(** An [errgroup.Group] made by [WithContext]: the goroutines started by
    [Go] that have not returned, the error kept by [errOnce], and
    [ctx.Err()] of the derived context. *)
Record Group : Type := mkGroup {
  running : list task_id;
  group_err : option error;
  group_ctx_Err : option error
}.

(** [errgroup.WithContext(parent)].  The group starts with the parent's
    state and follows its own cancel only; a parent cancelled later reaches
    the tasks through [ctx_Err] of their environment. *)
Definition errgroup_WithContext (parentErr : option error) : Group :=
  {| running := []; group_err := None; group_ctx_Err := parentErr |}.

(** [cancel]: the first cancellation makes [ctx.Err()] [context.Canceled]. *)
Definition Group_cancel (g : Group) : Group :=
  {| running := running g;
     group_err := group_err g;
     group_ctx_Err := match group_ctx_Err g with
                      | None => Some context_Canceled
                      | Some e => Some e
                      end |}.

Definition Group_Go (g : Group) (t : task_id) : Group :=
  {| running := t :: running g;
     group_err := group_err g;
     group_ctx_Err := group_ctx_Err g |}.

Definition is_running (g : Group) (t : task_id) : bool :=
  existsb (task_id_eqb t) (running g).

(** The goroutine of task [t] returns [err]: a non-nil error is kept if it
    is the first one, and cancels the context; then the task is done. *)
Definition Group_exit (g : Group) (x : task_id * option error) : Group :=
  let (t, err) := x in
  if is_running g t then
    let g' := match err, group_err g with
              | Some e, None =>
                  Group_cancel {| running := running g;
                                  group_err := Some e;
                                  group_ctx_Err := group_ctx_Err g |}
              | _, _ => g
              end in
    {| running := filter (fun u => negb (task_id_eqb t u)) (running g');
       group_err := group_err g';
       group_ctx_Err := group_ctx_Err g' |}
  else g.

(** [g.Wait()]: blocks ([None]) while a goroutine is running; then gives
    the kept error. *)
Definition Group_Wait (g : Group) : option (option error) :=
  match running g with
  | [] => Some (group_err g)
  | _ :: _ => None
  end.

(** *** Join *)

(** The group of [server.Join] once its three [g.Go] calls are made. *)
Definition server_Join_group (streamCtxErr : option error) : Group :=
  Group_Go (Group_Go (Group_Go (errgroup_WithContext streamCtxErr)
                        BusinessTask) ReadTask) WriteTask.

(** [server.Join], given the returns of its tasks so far, in the order
    they happened: [None] while [g.Wait()] blocks, else the returned
    error. *)
Definition server_Join (streamCtxErr : option error)
    (exits : list (task_id * option error)) : option (option error) :=
  match Group_Wait (fold_left Group_exit exits (server_Join_group streamCtxErr)) with
  | None => None
  | Some err => Some (trace_Wrap err [])
  end.

(** The first non-nil error of a list of returns. *)
Fixpoint first_error (exits : list (task_id * option error)) : option error :=
  match exits with
  | [] => None
  | (_, Some e) :: _ => Some e
  | (_, None) :: rest => first_error rest
  end.

(** ** The client-side stream adapter (lib/join/joinv1/messages.go) *)

(** What the client adapter can do to its stream and to the caller's
    [responses] channel.  [ClientStreamSend] carries the argument of the
    call [stream.Send]. *)
Inductive client_effect : Type :=
| ClientStreamSend (arg : option pb.JoinRequest) (err : option error)
| ClientCloseSend
| ClientStreamRecv
| SendOnResponses (resp : messages.Response).

(** What surrounds the client adapter at one moment. *)
Record client_env : Type := mkClientEnv {
  (** [ctx.Err()] of the group's context *)
  client_ctx_Err : option error;
  (** what a receive on the caller's [requests] finds *)
  requests_state : chan_state messages.Request;
  (** what [stream.Send] returns *)
  client_stream_Send : option error;
  (** what the server has sent and a [stream.Recv()] would return *)
  client_stream_inbound : option pb.JoinResponse;
  (** the choice of a select with both cases ready *)
  client_coin : bool
}.

Inductive send_pc : Type :=
| SendSelect
| SendExited (err : option error).

(** The one task of [Client.Join].  The request taken from the channel is
    not used: [stream.Send()] is called without it. *)
Definition send_step (pc : send_pc) (env : client_env)
  : send_pc * list client_effect :=
  match pc with
  | SendSelect =>
      match go_select (client_ctx_Err env) (recv_case (requests_state env))
                      (client_coin env) with
      | SelBlocked => (SendSelect, [])
      | SelDone e => (SendExited (trace_Wrap (Some e) []), [])
      | SelComm None => (SendExited None, [])
      | SelComm (Some req) =>
          match client_stream_Send env with
          | Some err =>
              (SendExited (trace_Wrap (Some err) []),
               [ClientStreamSend None (Some err)])
          | None => (SendSelect, [ClientStreamSend None None])
          end
      end
  | SendExited err => (SendExited err, [])
  end.

Fixpoint send_run (pc : send_pc) (script : list client_env)
  : send_pc * list client_effect :=
  match script with
  | [] => (pc, [])
  | env :: rest =>
      let (pc', effects) := send_step pc env in
      let (pc'', effects') := send_run pc' rest in
      (pc'', effects ++ effects')
  end.

(** Where [Client.Join] is after a script. *)
Inductive client_state : Type :=
| ClientReturned (err : option error)
| ClientTasks (sendTask : send_pc).

(** The struct [Client]: of its [grpcClient] the adapter uses the call
    [Join(ctx)], which opens the stream or returns an error. *)
Record Client : Type := mkClient {
  grpcClient_Join : option error
}.

(** [Client.Join].  When the stream opens the group gets its one task, the
    send task; the body ends there. *)
Definition Client_Join (c : Client) (script : list client_env)
  : client_state * list client_effect :=
  match grpcClient_Join c with
  | Some err => (ClientReturned (trace_Wrap (Some err) []), [])
  | None =>
      let (pc, effects) := send_run SendSelect script in
      (ClientTasks pc, effects)
  end.

Definition is_ClientCloseSend (x : client_effect) : bool :=
  match x with ClientCloseSend => true | _ => false end.

Definition is_SendOnResponses (x : client_effect) : bool :=
  match x with SendOnResponses _ => true | _ => false end.

Definition is_ClientStreamRecv (x : client_effect) : bool :=
  match x with ClientStreamRecv => true | _ => false end.

(** ** The benchmark finder (build.assets/tooling/cmd/benchfind/find.go) *)

Module benchfind.

(** [strings.HasPrefix(s, prefix)]. *)
Definition HasPrefix (s prefix : string) : bool := String.prefix prefix s.

(** [strings.HasSuffix(s, suffix)]:
    [len(s) >= len(suffix) && s[len(s)-len(suffix):] == suffix]. *)
Definition HasSuffix (s suffix : string) : bool :=
  (String.length suffix <=? String.length s)%nat
  && String.eqb
       (substring (String.length s - String.length suffix) (String.length suffix) s)
       suffix.

(** [strings.TrimSuffix(s, suffix)]. *)
Definition TrimSuffix (s suffix : string) : string :=
  if HasSuffix s suffix
  then substring 0 (String.length s - String.length suffix) s
  else s.

(** The part of [go/ast] that find.go looks at. *)
Record Ident : Type := mkIdent { Ident_Name : string }.

Inductive Expr : Type :=
| Expr_Ident (id : Ident)
| StarExpr (X : Expr)
| SelectorExpr (X : Expr) (Sel : Ident)
| Expr_other.

Record Field : Type := mkField {
  Field_Names : list Ident;
  Field_Type : Expr
}.

Record FieldList : Type := mkFieldList { List : list Field }.

Record FuncType : Type := mkFuncType { Params : option FieldList }.

Record FuncDecl : Type := mkFuncDecl {
  Recv : option FieldList;
  FuncDecl_Name : option Ident;
  FuncDecl_Type : option FuncType
}.

(** A declaration: a [*ast.FuncDecl] or something else. *)
Inductive Decl : Type :=
| Decl_FuncDecl (fn : FuncDecl)
| Decl_other.

Record File : Type := mkFile { Decls : list Decl }.

(** The part of [packages.Package] that find.go looks at. *)
Record Package : Type := mkPackage {
  PkgPath : string;
  Syntax : list File
}.

Record Config : Type := mkConfig {
  Patterns : list string;
  BuildTags : string;
  Dir : string;
  Excludes : list string
}.

Definition buildFlags (tags : string) : list string :=
  if String.eqb tags "" then [] else [("-tags=" ++ tags)%string].

Definition isBenchmark (fn : FuncDecl) : bool :=
  match FuncDecl_Name fn with
  | None => false
  | Some name =>
      if negb (HasPrefix (Ident_Name name) "Benchmark") then false
      else
        match FuncDecl_Type fn with
        | None => false
        | Some type =>
            match Params type with
            | None => false
            | Some fieldList =>
                match List fieldList with
                | [param] =>
                    match Field_Type param with
                    | StarExpr star_X =>
                        match star_X with
                        | SelectorExpr _ sel => String.eqb (Ident_Name sel) "B"
                        | _ => false
                        end
                    | _ => false
                    end
                | _ => false
                end
            end
        end
  end.

Fixpoint fileHasBenchmark_loop (decls : list Decl) : bool :=
  match decls with
  | [] => false
  | decl :: rest =>
      match decl with
      | Decl_FuncDecl fn =>
          match Recv fn with
          | Some _ => fileHasBenchmark_loop rest
          | None => if isBenchmark fn then true else fileHasBenchmark_loop rest
          end
      | Decl_other => fileHasBenchmark_loop rest
      end
  end.

Definition fileHasBenchmark (file : File) : bool :=
  fileHasBenchmark_loop (Decls file).

(** [slices.ContainsFunc(pkg.Syntax, fileHasBenchmark)]. *)
Definition hasBenchmark (pkg : Package) : bool :=
  existsb fileHasBenchmark (Syntax pkg).

Fixpoint matchesAnyPrefix (path : string) (prefixes : list string) : bool :=
  match prefixes with
  | [] => false
  | p :: rest => if HasPrefix path p then true else matchesAnyPrefix path rest
  end.

(** The [packages.Config] Find builds (its Mode is a constant). *)
Record packages_Config : Type := mkPackagesConfig {
  cfg_Dir : string;
  cfg_Tests : bool;
  cfg_BuildFlags : list string
}.

(** The functions of [golang.org/x/tools/go/packages] Find calls: [Load],
    [PrintErrors] (the number of errors it printed) and [Visit] (the
    packages in the order in which it calls its post function). *)
Record packages_api : Type := mkPackagesApi {
  Load : packages_Config -> list string -> result (list Package);
  PrintErrors : list Package -> nat;
  Visit : list Package -> list Package
}.

(** The variable [path] of the function Find gives to Visit. *)
Definition trimmed_path (p : Package) : string :=
  TrimSuffix (TrimSuffix (PkgPath p) ".test") "_test".

(** The key set of the map [seen]. *)
Definition seen_has (seen : list string) (path : string) : bool :=
  existsb (String.eqb path) seen.

(** The function Find gives to Visit, on the variables [seen] and [result]
    it closes over. *)
Definition visit_post (cfg : Config) (st : list string * list string)
    (p : Package) : list string * list string :=
  let (seen, result) := st in
  let path := trimmed_path p in
  if matchesAnyPrefix path (Excludes cfg) then st
  else if hasBenchmark p then
         if seen_has seen path then st
         else (path :: seen, result ++ [path])
       else st.

Definition Find (api : packages_api) (cfg : Config) : result (list string) :=
  let patterns := match Patterns cfg with
                  | [] => ["./..."]
                  | _ :: _ => Patterns cfg
                  end in
  match Load api {| cfg_Dir := Dir cfg;
                    cfg_Tests := true;
                    cfg_BuildFlags := buildFlags (BuildTags cfg) |} patterns with
  | Err err => Err (TraceErr err [])
  | Ok pkgs =>
      if (0 <? PrintErrors api pkgs)%nat
      then Err (TraceErr (BadParameterError "failed to load some packages") [])
      else Ok (snd (fold_left (visit_post cfg) (Visit api pkgs) ([], [])))
  end.

(** The paths Find is to report, in order: those of the packages that are
    not excluded and have a benchmark. *)
Definition candidates (cfg : Config) (pkgs : list Package) : list string :=
  map trimmed_path
    (filter (fun p => negb (matchesAnyPrefix (trimmed_path p) (Excludes cfg))
                      && hasBenchmark p) pkgs).

(** A list without the repetitions of its elements, each kept where it
    comes first; [seen] holds what came before. *)
Fixpoint first_occurrences (seen : list string) (l : list string) : list string :=
  match l with
  | [] => []
  | x :: rest =>
      if seen_has seen x then first_occurrences seen rest
      else x :: first_occurrences (x :: seen) rest
  end.

End benchfind.

(** ** The Kubernetes server resource (tool/tctl/common/resources/kube_server.go) *)

Module resources.

(** What kube_server.go asks of a [types.KubeServer]. *)
Record KubeServer : Type := mkKubeServer {
  GetName : string;
  GetHostname : string;
  GetHostID : string
}.

(** The field of [services.Ref] the handlers read. *)
Record Ref : Type := mkRef { Ref_Name : string }.

(** An error of the handlers: [trace.Wrap] of an error a call returned, or
    [trace.NotFound(format, arg)]. *)
Inductive handler_error : Type :=
| WrappedError (err : error)
| NotFoundError (format arg : string).

(** What a handler does to the outside: the calls on the client and the
    lines it prints. *)
Inductive call : Type :=
| Call_GetKubernetesServers
| Call_UpsertKubernetesServer (server : KubeServer)
| Call_DeleteKubernetesServer (hostID name : string)
| Call_Printf (format : string) (args : list string).

(** The [*authclient.Client]: what its calls return.  A deletion may depend
    on the deletions made before it. *)
Record Client : Type := mkClient {
  GetKubernetesServers : result (list KubeServer);
  UpsertKubernetesServer : KubeServer -> option error;
  DeleteKubernetesServer : list (string * string) -> string -> string -> option error
}.

Section Handlers.

(** The functions of the repository that kube_server.go calls and that are
    not part of the sources. *)
Variable FilterByNameOrDiscoveredName :
  list KubeServer -> string -> (KubeServer -> string) -> list KubeServer.
Variable GetOneResourceNameToDelete :
  list KubeServer -> Ref -> string -> result string.
Variable UnmarshalKubeServer : bytes -> result KubeServer.

Definition altNameFn (r : KubeServer) : string := GetHostname r.

(** [getKubeServer]: the servers of the collection, or the error. *)
Definition getKubeServer (client : Client) (ref : Ref)
  : (list KubeServer + handler_error) * list call :=
  match GetKubernetesServers client with
  | Err err => (inr (WrappedError err), [Call_GetKubernetesServers])
  | Ok servers =>
      if String.eqb (Ref_Name ref) ""
      then (inl servers, [Call_GetKubernetesServers])
      else
        let servers := FilterByNameOrDiscoveredName servers (Ref_Name ref) altNameFn in
        match servers with
        | [] => (inr (NotFoundError "Kubernetes server %q not found" (Ref_Name ref)),
                 [Call_GetKubernetesServers])
        | _ :: _ => (inl servers, [Call_GetKubernetesServers])
        end
  end.

Definition createKubeServer (client : Client) (raw : bytes)
  : option handler_error * list call :=
  match UnmarshalKubeServer raw with
  | Err err => (Some (WrappedError err), [])
  | Ok kubeServer =>
      match UpsertKubernetesServer client kubeServer with
      | Some err =>
          (Some (WrappedError err), [Call_UpsertKubernetesServer kubeServer])
      | None =>
          (None,
           [Call_UpsertKubernetesServer kubeServer;
            Call_Printf "Kubernetes server %q has been upserted\n" [GetName kubeServer]])
      end
  end.




End Handlers.



End resources.

(** ** What the tasks read and forward *)

(** The requests the read task put on the [requests] channel. *)
Fixpoint sent_requests (effects : list read_effect) : list messages.Request :=
  match effects with
  | [] => []
  | SendOnRequests msg :: rest => msg :: sent_requests rest
  | CloseRequests :: rest => sent_requests rest
  end.

(** The results of the calls of [stream.Recv()] the read task made along a
    script: a call is made at the program point [ReadRecv], and returns when
    something has arrived. *)
Fixpoint read_reads (pc : read_pc) (script : list server_env)
  : list (option pb.JoinRequest * option error) :=
  match script with
  | [] => []
  | env :: rest =>
      match pc, stream_Recv env with
      | ReadRecv, Some r => r :: read_reads (fst (read_step pc env)) rest
      | _, _ => read_reads (fst (read_step pc env)) rest
      end
  end.

(** The message a result of [stream.Recv()] decodes to, if it is a message
    and decodes. *)
Definition decoded_read (r : option pb.JoinRequest * option error)
  : list messages.Request :=
  let (req, err) := r in
  match err with
  | Some _ => []
  | None =>
      match convertRequestToMessage req with
      | Ok msg => [msg]
      | Err _ => []
      end
  end.

(** The message the read task holds in its select. *)
Definition read_pending (pc : read_pc) : list messages.Request :=
  match pc with
  | ReadSelect msg => [msg]
  | _ => []
  end.

(** What is left of the decoded messages once the forwarded ones are taken
    off, by where the read task is. *)
Definition read_tail_ok (pc : read_pc) (tail : list messages.Request) : Prop :=
  match pc with
  | ReadRecv => tail = []
  | ReadSelect msg => tail = [msg]
  | ReadExited None => tail = []
  | ReadExited (Some _) => (List.length tail <= 1)%nat
  end.

Definition is_Request_ClientInit (msg : messages.Request) : bool :=
  match msg with messages.Request_ClientInit _ => true | _ => false end.

(** A wire ClientInit with its optional fields set and a timestamp in the
    range protobuf calls valid. *)
Definition wellformed_ClientInit (req : pb.ClientInit) : Prop :=
  pb.JoinMethod req <> None
  /\ exists t, pb.Expires req = Some t
               /\ (0 <= pb.Nanos t < pb.billion)%Z.

(** ** Sample values *)

Definition sample_Result : messages.Result :=
  {| messages.TLSCert := [x01];
     messages.TLSCACerts := [];
     messages.SSHCert := [x02];
     messages.SSHCAKeys := [];
     messages.HostID := "host-123" |}.

Definition sample_Result' : messages.Result :=
  {| messages.TLSCert := [x01];
     messages.TLSCACerts := [];
     messages.SSHCert := [x03];
     messages.SSHCAKeys := [];
     messages.HostID := "host-123" |}.

Definition sample_ClientInit : pb.ClientInit :=
  {| pb.JoinMethod := Some "token";
     pb.TokenName := "";
     pb.NodeName := "node-1";
     pb.Role := "Node";
     pb.AdditionalPrincipals := [];
     pb.DnsNames := [];
     pb.PublicTlsKey := [];
     pb.PublicSshKey := [];
     pb.Expires := Some {| pb.Seconds := 3600; pb.Nanos := 0 |};
     pb.ProxySuppliedParameters := None |}.

(** A wire request whose payload is a method-specific variant. *)
Definition sample_method_request : pb.JoinRequest :=
  {| pb.JoinRequest_Payload := pb.JoinRequest_other "*joinv1.JoinRequest_Challenge" |}.

Definition sample_ClientInit_request : pb.JoinRequest :=
  {| pb.JoinRequest_Payload := pb.JoinRequest_ClientInit sample_ClientInit |}.

(** A quiet moment on the server: nothing arrived, nobody ready. *)
Definition quiet : server_env :=
  {| stream_Recv := None;
     stream_Send := None;
     ctx_Err := None;
     requests_receiving := false;
     responses_state := ChanNotReady;
     coin := false |}.

Definition arrives (req : option pb.JoinRequest) (err : option error) : server_env :=
  {| stream_Recv := Some (req, err);
     stream_Send := None;
     ctx_Err := None;
     requests_receiving := false;
     responses_state := ChanNotReady;
     coin := false |}.

Definition receiving : server_env :=
  {| stream_Recv := None;
     stream_Send := None;
     ctx_Err := None;
     requests_receiving := true;
     responses_state := ChanNotReady;
     coin := false |}.

Definition cancelled (e : error) : server_env :=
  {| stream_Recv := None;
     stream_Send := None;
     ctx_Err := Some e;
     requests_receiving := false;
     responses_state := ChanNotReady;
     coin := false |}.

Definition responds (c : chan_state messages.Response) (sendErr : option error)
  : server_env :=
  {| stream_Recv := None;
     stream_Send := sendErr;
     ctx_Err := None;
     requests_receiving := false;
     responses_state := c;
     coin := false |}.

(** A moment on the client: what the caller's [requests] holds and what
    the server has sent. *)
Definition client_moment (c : chan_state messages.Request)
    (inbound : option pb.JoinResponse) : client_env :=
  {| client_ctx_Err := None;
     requests_state := c;
     client_stream_Send := None;
     client_stream_inbound := inbound;
     client_coin := false |}.

Definition sample_wire_ServerInit : pb.JoinResponse :=
  {| pb.JoinResponse_Payload :=
       pb.JoinResponse_Init {| pb.ServerInit_JoinMethod := "token" |} |}.

(** [func BenchmarkFoo(b *testing.B)], a file that declares it, and
    packages loaded with it. *)
Definition sample_benchmark : benchfind.FuncDecl :=
  benchfind.mkFuncDecl None (Some (benchfind.mkIdent "BenchmarkFoo"))
    (Some (benchfind.mkFuncType
             (Some (benchfind.mkFieldList
                      [benchfind.mkField [benchfind.mkIdent "b"]
                         (benchfind.StarExpr
                            (benchfind.SelectorExpr
                               (benchfind.Expr_Ident (benchfind.mkIdent "testing"))
                               (benchfind.mkIdent "B")))])))).

Definition sample_benchmark_file : benchfind.File :=
  benchfind.mkFile [benchfind.Decl_other; benchfind.Decl_FuncDecl sample_benchmark].

Definition sample_packages : list benchfind.Package :=
  [benchfind.mkPackage "example.com/a" [sample_benchmark_file];
   benchfind.mkPackage "example.com/a_test" [sample_benchmark_file];
   benchfind.mkPackage "example.com/gen/b" [sample_benchmark_file];
   benchfind.mkPackage "example.com/c" [benchfind.mkFile []]].

Definition sample_packages_api : benchfind.packages_api :=
  {| benchfind.Load := fun _ _ => Ok sample_packages;
     benchfind.PrintErrors := fun _ => 0%nat;
     benchfind.Visit := fun pkgs => pkgs |}.

Definition sample_Config (excludes : list string) : benchfind.Config :=
  benchfind.mkConfig [] "" "." excludes.

(** Stand-ins for the helpers of kube_server.go, and a client with two
    servers of one name whose second deletion fails. *)
Definition sample_filter (servers : list resources.KubeServer) (name : string)
    (altNameFn : resources.KubeServer -> string) : list resources.KubeServer :=
  filter (fun s => String.eqb (resources.GetName s) name
                   || String.eqb (altNameFn s) name) servers.



Definition sample_kube_client : resources.Client :=
  {| resources.GetKubernetesServers :=
       Ok [resources.mkKubeServer "kube-1" "node-1" "host-1";
           resources.mkKubeServer "kube-2" "node-2" "host-2";
           resources.mkKubeServer "kube-1" "node-3" "host-3"];
     resources.UpsertKubernetesServer := fun _ => None;
     resources.DeleteKubernetesServer :=
       fun done hostID name =>
         match done with
         | [] => None
         | _ :: _ => Some (TransportError "connection lost")
         end |}.


(** ** Auxiliary definitions of the proofs *)

(** The cases of one step of the read task from a point where it runs. *)
Inductive read_turn (env : server_env)
  : read_pc -> read_pc -> list read_effect -> Prop :=
| rt_wait :
    stream_Recv env = None ->
    read_turn env ReadRecv ReadRecv []
| rt_eof req err :
    stream_Recv env = Some (req, err) ->
    errors_Is err io_EOF = true ->
    read_turn env ReadRecv (ReadExited None) [CloseRequests]
| rt_read_error req e :
    stream_Recv env = Some (req, Some e) ->
    errors_Is (Some e) io_EOF = false ->
    read_turn env ReadRecv
      (ReadExited (Some (TraceErr e ["reading client request from stream"])))
      [CloseRequests]
| rt_decode_error req e :
    stream_Recv env = Some (req, None) ->
    convertRequestToMessage req = Err e ->
    read_turn env ReadRecv (ReadExited (Some (TraceErr e []))) [CloseRequests]
| rt_decoded req msg :
    stream_Recv env = Some (req, None) ->
    convertRequestToMessage req = Ok msg ->
    read_turn env ReadRecv (ReadSelect msg) []
| rt_blocked msg :
    read_turn env (ReadSelect msg) (ReadSelect msg) []
| rt_done msg e :
    ctx_Err env = Some e ->
    read_turn env (ReadSelect msg) (ReadExited (Some e)) [CloseRequests]
| rt_sent msg :
    requests_receiving env = true ->
    read_turn env (ReadSelect msg) ReadRecv [SendOnRequests msg].

(** The cases of one turn of the write loop. *)
Inductive write_turn (env : server_env) : write_pc -> list write_effect -> Prop :=
| turn_blocked :
    write_turn env WriteSelect []
| turn_done e :
    ctx_Err env = Some e ->
    write_turn env (WriteExited (Some e)) []
| turn_closed :
    responses_state env = ChanClosed ->
    write_turn env (WriteExited None) [ResponsesClosed]
| turn_encode_error resp e :
    responses_state env = ChanValue resp ->
    convertResponseFromMessage resp = Err e ->
    write_turn env (WriteExited (Some (TraceErr e []))) [RecvFromResponses resp]
| turn_send_error resp msg e :
    responses_state env = ChanValue resp ->
    convertResponseFromMessage resp = Ok msg ->
    stream_Send env = Some e ->
    write_turn env
      (WriteExited (Some (TraceErr e ["sending server response to stream"])))
      [RecvFromResponses resp; StreamSend msg (Some e)]
| turn_written resp msg :
    responses_state env = ChanValue resp ->
    convertResponseFromMessage resp = Ok msg ->
    stream_Send env = None ->
    write_turn env WriteSelect [RecvFromResponses resp; StreamSend msg None].




(** ** Properties of the translator *)

Section Translator.

(** C1: the wire Result built from a Result carries the TLS certificate in
    its SshCert field, not the SSH certificate: at [sample_Result] the two
    differ, and two Results that differ only in SSHCert get the same wire
    message, so no decoding gives the original back. *)
Theorem convertResultFromMessage_drops_SSHCert :
  pb.SshCert (convertResultFromMessage sample_Result) = [x01]
  /\ messages.SSHCert sample_Result = [x02]
  /\ pb.TlsCert (convertResultFromMessage sample_Result) = messages.TLSCert sample_Result
  /\ (forall msg, pb.SshCert (convertResultFromMessage msg) = messages.TLSCert msg)
  /\ sample_Result <> sample_Result'
  /\ convertResponseFromMessage (messages.Response_Result sample_Result)
     = convertResponseFromMessage (messages.Response_Result sample_Result')
  /\ (forall decode : pb.JoinResponse -> messages.Response,
        ~ (forall msg wire,
             convertResponseFromMessage (messages.Response_Result msg) = Ok wire ->
             decode wire = messages.Response_Result msg)).
Proof.
  repeat split; try reflexivity.
  - discriminate.
  - intros decode Hround.
    pose proof (Hround sample_Result _ eq_refl) as H1.
    pose proof (Hround sample_Result' _ eq_refl) as H2.
    cbv in H1, H2. rewrite H1 in H2. discriminate.
Qed.

Lemma convertRequestToMessage_ClientInit (req : option pb.JoinRequest) clientInit :
  pb.GetPayload req = pb.JoinRequest_ClientInit clientInit ->
  convertRequestToMessage req
  = Ok (messages.Request_ClientInit (convertClientInitToMessage clientInit)).
Proof. unfold convertRequestToMessage. intros ->. reflexivity. Qed.

Lemma convertRequestToMessage_unrecognized (req : option pb.JoinRequest) :
  is_ClientInit_payload (pb.GetPayload req) = false ->
  convertRequestToMessage req
  = Err (trace_BadParameter "unrecognized join request message type "
           (pb.payload_typeName (pb.GetPayload req))).
Proof.
  unfold convertRequestToMessage.
  destruct (pb.GetPayload req); simpl; intros H; [reflexivity | discriminate | reflexivity].
Qed.

Lemma convertResponseFromMessage_unrecognized (resp : messages.Response) :
  is_ServerInit resp = false -> is_Result resp = false ->
  convertResponseFromMessage resp
  = Err (trace_BadParameter "unrecognized join response message type "
           (response_typeName resp)).
Proof. destruct resp; simpl; intros; reflexivity || discriminate. Qed.


End Translator.

(** ** Properties of the server-side adapter *)

Section ServerAdapter.

(** C5: the server that RegisterJoinServiceServer registers has a nil
    service, so its business-logic task panics on the method call and never
    returns what a Join Service returns. *)
Theorem registered_server_has_nil_service :
  forall s : ServiceRegistrar,
    exists srv,
      RegisterJoinServiceServer s = (srv :: s, None)
      /\ service srv = None
      /\ forall ctxErr,
           (exists reason, business_task srv ctxErr = Panicked reason)
           /\ forall svc : Service,
                business_task srv ctxErr
                <> Returned (trace_Wrap
                               (Service_Join svc ctxErr requests_chan responses_chan) []).
Proof.
  intros s. exists {| service := None |}.
  split; [reflexivity | split; [reflexivity |]].
  intros ctxErr. split.
  - eexists. reflexivity.
  - intros svc. discriminate.
Qed.

Lemma read_run_exited (err : option error) (script : list server_env) :
  read_run (ReadExited err) script = (ReadExited err, []).
Proof.
  induction script as [|env rest IH]; simpl; [reflexivity |].
  rewrite IH. reflexivity.
Qed.

Lemma read_run_app (pc : read_pc) (s1 s2 : list server_env) :
  read_run pc (s1 ++ s2)
  = let (pc1, e1) := read_run pc s1 in
    let (pc2, e2) := read_run pc1 s2 in
    (pc2, e1 ++ e2).
Proof.
  revert pc. induction s1 as [|env rest IH]; intros pc; simpl.
  - destruct (read_run pc s2). reflexivity.
  - destruct (read_step pc env) as [pc' e0].
    rewrite IH.
    destruct (read_run pc' rest) as [pc1 e1].
    destruct (read_run pc1 s2) as [pc2 e2].
    rewrite app_assoc. reflexivity.
Qed.

(** After one more moment [env], from a task that has not exited. *)
Lemma read_task_snoc (pre : list server_env) (env : server_env) pc effs :
  read_task pre = (pc, effs) ->
  read_task (pre ++ [env])
  = (fst (read_step pc env), effs ++ snd (read_step pc env)).
Proof.
  unfold read_task. intros H. rewrite read_run_app, H. simpl.
  destruct (read_step pc env) as [pc' e]. simpl.
  rewrite app_nil_r. reflexivity.
Qed.

Lemma read_body_no_close (pc : read_pc) (env : server_env) :
  ~ In CloseRequests (snd (read_body pc env)).
Proof.
  destruct pc as [|msg|err]; simpl.
  - destruct (stream_Recv env) as [[req err]|]; simpl; [|tauto].
    destruct (errors_Is err io_EOF); simpl; [tauto|].
    destruct err; simpl; [tauto|].
    destruct (convertRequestToMessage req); simpl; tauto.
  - destruct (go_select _ _ _); simpl; [tauto | tauto |].
    intros [H|[]]. discriminate.
  - tauto.
Qed.

(** The deferred close runs on each return of the read task, once, after
    everything else. *)
Lemma read_run_closes (script : list server_env) :
  forall pc pc' effects,
    read_exited pc = false ->
    read_run pc script = (pc', effects) ->
    if read_exited pc'
    then exists pre, effects = pre ++ [CloseRequests] /\ ~ In CloseRequests pre
    else ~ In CloseRequests effects.
Proof.
  induction script as [|env rest IH]; intros pc pc' effects Hpc; simpl.
  - intros H. injection H as <- <-. rewrite Hpc. tauto.
  - unfold read_step.
    pose proof (read_body_no_close pc env) as Hbody.
    destruct (read_body pc env) as [pc1 e1]. simpl in Hbody.
    rewrite Hpc. simpl.
    destruct (read_exited pc1) eqn:Hpc1.
    + destruct pc1 as [| |err1]; try discriminate.
      rewrite read_run_exited. intros H. injection H as <- <-. simpl.
      exists e1. rewrite app_nil_r. tauto.
    + specialize (IH pc1).
      destruct (read_run pc1 rest) as [pc2 e2].
      intros H. injection H as <- <-.
      specialize (IH pc2 e2 Hpc1 eq_refl).
      destruct (read_exited pc2).
      * destruct IH as [pre [-> Hpre]].
        exists (e1 ++ pre). rewrite app_assoc. split; [reflexivity|].
        rewrite in_app_iff. tauto.
      * rewrite in_app_iff. tauto.
Qed.

(** C4 (amended): a wire request whose payload is not the ClientInit variant
    does not decode: the translator returns the bad-parameter error, and the
    read task that received it returns that error and closes the requests
    channel, with nothing sent to the business logic. *)
Theorem non_ClientInit_request_is_rejected
    (req : option pb.JoinRequest) (env : server_env) :
  is_ClientInit_payload (pb.GetPayload req) = false ->
  stream_Recv env = Some (req, None) ->
  convertRequestToMessage req
  = Err (trace_BadParameter "unrecognized join request message type "
           (pb.payload_typeName (pb.GetPayload req)))
  /\ read_step ReadRecv env
     = (ReadExited
          (Some (TraceErr
                   (trace_BadParameter "unrecognized join request message type "
                      (pb.payload_typeName (pb.GetPayload req))) [])),
        [CloseRequests]).
Proof.
  intros Hp Hrecv.
  pose proof (convertRequestToMessage_unrecognized req Hp) as Hconv.
  split; [exact Hconv|].
  unfold read_step, read_body. rewrite Hrecv. simpl. rewrite Hconv. reflexivity.
Qed.

(** The amended C4 at [sample_method_request]. *)
Lemma non_ClientInit_request_is_rejected_witness :
  is_ClientInit_payload (pb.GetPayload (Some sample_method_request)) = false
  /\ stream_Recv (arrives (Some sample_method_request) None)
     = Some (Some sample_method_request, None)
  /\ read_step ReadRecv (arrives (Some sample_method_request) None)
     = (ReadExited
          (Some (TraceErr
                   (trace_BadParameter "unrecognized join request message type "
                      "*joinv1.JoinRequest_Challenge") [])),
        [CloseRequests]).
Proof.
  split; [reflexivity | split; [reflexivity |]].
  apply (non_ClientInit_request_is_rejected
           (Some sample_method_request)
           (arrives (Some sample_method_request) None));
    reflexivity.
Defined.

(** Against C4 as stated: the wire request [sample_method_request], whose
    payload is a method-specific variant, is not decoded into a Request; the
    read task returns the error, and nothing reaches the business logic even
    while it is receiving. *)
Lemma method_specific_request_fails_to_decode :
  convertRequestToMessage (Some sample_method_request)
  = Err (TraceErr
           (BadParameterError
              "unrecognized join request message type *joinv1.JoinRequest_Challenge")
           [])
  /\ read_task [arrives (Some sample_method_request) None; receiving]
     = (ReadExited
          (Some (TraceErr
                   (TraceErr
                      (BadParameterError
                         "unrecognized join request message type *joinv1.JoinRequest_Challenge")
                      []) [])),
        [CloseRequests]).
Proof. split; reflexivity. Qed.

(** C7: the read task returns nil when the stream read reports the end of
    the stream, returns an error on any other read error and on a decode
    error, and each of its returns closes the requests channel (once, as its
    last effect). *)
Theorem read_task_returns_and_closes :
  (forall pre effs env req err,
      read_task pre = (ReadRecv, effs) ->
      stream_Recv env = Some (req, err) ->
      (errors_Is err io_EOF = true ->
       read_task (pre ++ [env]) = (ReadExited None, effs ++ [CloseRequests]))
      /\ (forall e, err = Some e -> errors_Is err io_EOF = false ->
          read_task (pre ++ [env])
          = (ReadExited (Some (TraceErr e ["reading client request from stream"])),
             effs ++ [CloseRequests]))
      /\ (forall e, err = None -> convertRequestToMessage req = Err e ->
          read_task (pre ++ [env])
          = (ReadExited (Some (TraceErr e [])), effs ++ [CloseRequests])))
  /\ (forall script err effects,
      read_task script = (ReadExited err, effects) ->
      exists before,
        effects = before ++ [CloseRequests] /\ ~ In CloseRequests before)
  /\ (forall script pc effects,
      read_task script = (pc, effects) ->
      read_exited pc = false ->
      ~ In CloseRequests effects).
Proof.
  split; [|split].
  - intros pre effs env req err Hpre Hrecv.
    rewrite (read_task_snoc pre env _ _ Hpre).
    unfold read_step, read_body. rewrite Hrecv.
    split; [|split].
    + intros ->. reflexivity.
    + intros e -> ->. reflexivity.
    + intros e -> ->. reflexivity.
  - intros script err effects H.
    exact (read_run_closes script ReadRecv _ _ eq_refl H).
  - intros script pc effects H Hpc.
    pose proof (read_run_closes script ReadRecv _ _ eq_refl H) as Hc.
    rewrite Hpc in Hc. exact Hc.
Qed.

(** C7 on a stream that carries one ClientInit and is then half-closed. *)
Lemma read_task_returns_and_closes_witness :
  read_task [arrives (Some sample_ClientInit_request) None; receiving]
  = (ReadRecv,
     [SendOnRequests
        (messages.Request_ClientInit (convertClientInitToMessage sample_ClientInit))])
  /\ read_task ([arrives (Some sample_ClientInit_request) None; receiving]
                ++ [arrives None (Some io_EOF)])
     = (ReadExited None,
        [SendOnRequests
           (messages.Request_ClientInit (convertClientInitToMessage sample_ClientInit))]
        ++ [CloseRequests])
  /\ exists before,
       [SendOnRequests
          (messages.Request_ClientInit (convertClientInitToMessage sample_ClientInit));
        CloseRequests]
       = before ++ [CloseRequests] /\ ~ In CloseRequests before.
Proof.
  split; [reflexivity | split].
  - apply (proj1 read_task_returns_and_closes
             [arrives (Some sample_ClientInit_request) None; receiving]
             _ (arrives None (Some io_EOF)) None (Some io_EOF));
      reflexivity.
  - apply (proj1 (proj2 read_task_returns_and_closes)
             [arrives (Some sample_ClientInit_request) None; receiving;
              arrives None (Some io_EOF)]
             None).
    reflexivity.
Defined.

Lemma write_run_exited (err : option error) (script : list server_env) :
  write_run (WriteExited err) script = (WriteExited err, []).
Proof.
  induction script as [|env rest IH]; simpl; [reflexivity |].
  rewrite IH. reflexivity.
Qed.



Lemma write_step_turn (env : server_env) :
  write_turn env (fst (write_step WriteSelect env)) (snd (write_step WriteSelect env)).
Proof.
  unfold write_step, go_select.
  destruct (ctx_Err env) as [e|] eqn:Hctx;
    destruct (responses_state env) as [|resp|] eqn:Hst; simpl;
    try destruct (coin env); simpl;
    try (destruct (convertResponseFromMessage resp) as [msg|e'] eqn:Hconv;
         [destruct (stream_Send env) as [e''|] eqn:Hsend|]); simpl;
    eauto using write_turn.
Qed.

Lemma received_app (e1 e2 : list write_effect) :
  received (e1 ++ e2) = received e1 ++ received e2.
Proof.
  induction e1 as [|x rest IH]; simpl; [reflexivity|].
  destruct x; simpl; rewrite IH; reflexivity.
Qed.

Lemma written_app (e1 e2 : list write_effect) :
  written (e1 ++ e2) = written e1 ++ written e2.
Proof.
  induction e1 as [|x rest IH]; simpl; [reflexivity|].
  destruct x as [resp| |msg [err|]]; simpl; rewrite IH; reflexivity.
Qed.


(** Without a cancellation the same two selects block. *)
Example selects_block_without_cancellation (msg : messages.Request) :
  read_step (ReadSelect msg) quiet = (ReadSelect msg, [])
  /\ write_step WriteSelect quiet = (WriteSelect, []).
Proof. split; reflexivity. Qed.

(** C10: with the group's context cancelled, a read task blocked in its send
    to the business logic returns the context's error (and closes the
    requests channel), a write task blocked in its receive from the
    responses channel returns the context's error, and neither select is
    blocked. *)
Theorem cancelled_context_unblocks_reader_and_writer
    (env : server_env) (e : error) (msg : messages.Request) :
  ctx_Err env = Some e ->
  (requests_receiving env = false ->
   read_step (ReadSelect msg) env = (ReadExited (Some e), [CloseRequests]))
  /\ (responses_state env = ChanNotReady ->
      write_step WriteSelect env = (WriteExited (Some e), []))
  /\ go_select (ctx_Err env) (send_case (requests_receiving env)) (coin env)
     <> SelBlocked
  /\ go_select (ctx_Err env) (recv_case (responses_state env)) (coin env)
     <> SelBlocked.
Proof.
  intros Hctx. split; [|split; [|split]].
  - intros Hrecv. unfold read_step, read_body. rewrite Hctx, Hrecv. reflexivity.
  - intros Hst. unfold write_step. rewrite Hctx, Hst. reflexivity.
  - rewrite Hctx. unfold go_select.
    destruct (send_case (requests_receiving env)); [destruct (coin env)|]; discriminate.
  - rewrite Hctx. unfold go_select.
    destruct (recv_case (responses_state env)); [destruct (coin env)|]; discriminate.
Qed.

(** C10 on a cancelled context with nobody ready on either channel. *)
Lemma cancelled_context_unblocks_reader_and_writer_witness :
  ctx_Err (cancelled context_Canceled) = Some context_Canceled
  /\ read_step (ReadSelect (messages.Request_ClientInit
                              (convertClientInitToMessage sample_ClientInit)))
       (cancelled context_Canceled)
     = (ReadExited (Some context_Canceled), [CloseRequests])
  /\ write_step WriteSelect (cancelled context_Canceled)
     = (WriteExited (Some context_Canceled), []).
Proof.
  split; [reflexivity |].
  pose proof (cancelled_context_unblocks_reader_and_writer
                (cancelled context_Canceled) context_Canceled
                (messages.Request_ClientInit
                   (convertClientInitToMessage sample_ClientInit))
                eq_refl) as [Hread [Hwrite _]].
  split; [apply Hread | apply Hwrite]; reflexivity.
Defined.

Lemma task_id_eqb_eq (a b : task_id) : task_id_eqb a b = true <-> a = b.
Proof. destruct a, b; simpl; split; intros H; try reflexivity; discriminate. Qed.

Lemma task_id_eqb_refl (a : task_id) : task_id_eqb a a = true.
Proof. destruct a; reflexivity. Qed.

Lemma is_running_In (g : Group) (t : task_id) :
  is_running g t = true <-> In t (running g).
Proof.
  unfold is_running. rewrite existsb_exists. split.
  - intros [u [Hin Heq]]. apply task_id_eqb_eq in Heq. subst. exact Hin.
  - intros Hin. exists t. split; [exact Hin | apply task_id_eqb_refl].
Qed.

Lemma existsb_filter_neq (t u : task_id) (l : list task_id) :
  existsb (task_id_eqb u) (filter (fun v => negb (task_id_eqb t v)) l)
  = existsb (task_id_eqb u) l && negb (task_id_eqb t u).
Proof.
  induction l as [|v rest IH]; simpl; [reflexivity|].
  destruct (task_id_eqb t v) eqn:Htv; simpl; rewrite IH.
  - apply task_id_eqb_eq in Htv. subst v.
    destruct (task_id_eqb u t) eqn:Hut; simpl; [|reflexivity].
    apply task_id_eqb_eq in Hut. subst u. rewrite task_id_eqb_refl. simpl.
    rewrite andb_false_r. reflexivity.
  - destruct (task_id_eqb u v) eqn:Huv; simpl; [|reflexivity].
    apply task_id_eqb_eq in Huv. subst v. rewrite Htv. reflexivity.
Qed.

(** Which tasks run after a return. *)
Lemma is_running_exit (g : Group) (t u : task_id) (err : option error) :
  is_running (Group_exit g (t, err)) u
  = is_running g u && negb (task_id_eqb t u).
Proof.
  unfold Group_exit. destruct (is_running g t) eqn:Ht.
  - unfold is_running at 1. simpl.
    replace (running (match err with
                      | Some e => match group_err g with
                                  | Some _ => g
                                  | None => _
                                  end
                      | None => g
                      end)) with (running g)
      by (destruct err; [destruct (group_err g)|]; reflexivity).
    apply existsb_filter_neq.
  - destruct (task_id_eqb t u) eqn:Htu; simpl.
    + apply task_id_eqb_eq in Htu. subst u. rewrite Ht. reflexivity.
    + rewrite andb_true_r. reflexivity.
Qed.

(** The error kept after the return of a running task. *)
Lemma group_err_exit (g : Group) (t : task_id) (err : option error) :
  is_running g t = true ->
  group_err (Group_exit g (t, err))
  = match group_err g with
    | Some e => Some e
    | None => err
    end.
Proof.
  unfold Group_exit. intros ->.
  destruct err as [e|]; destruct (group_err g) as [e0|] eqn:Hg; simpl;
    rewrite ?Hg; reflexivity.
Qed.




Lemma fold_exit_spec (exits : list (task_id * option error)) :
  forall g,
    NoDup (map fst exits) ->
    (forall t, In t (map fst exits) -> is_running g t = true) ->
    (forall u, is_running (fold_left Group_exit exits g) u
               = is_running g u && negb (existsb (task_id_eqb u) (map fst exits)))
    /\ group_err (fold_left Group_exit exits g)
       = match group_err g with
         | Some e => Some e
         | None => first_error exits
         end.
Proof.
  induction exits as [|[t err] rest IH]; intros g Hnd Hrun;
    cbn [fold_left map fst first_error existsb].
  - split; [intros u; simpl; rewrite andb_true_r; reflexivity|].
    destruct (group_err g); reflexivity.
  - simpl in Hnd. inversion Hnd as [|? ? Hnotin Hnd']; subst.
    assert (Ht : is_running g t = true) by (apply Hrun; left; reflexivity).
    destruct (IH (Group_exit g (t, err)) Hnd') as [IHrun IHerr].
    { intros u Hu. rewrite is_running_exit.
      rewrite (Hrun u) by (right; exact Hu). simpl.
      destruct (task_id_eqb t u) eqn:Htu; [|reflexivity].
      apply task_id_eqb_eq in Htu. subst u. contradiction. }
    split.
    + intros u. rewrite IHrun, is_running_exit.
      rewrite negb_orb, andb_assoc.
      replace (task_id_eqb u t) with (task_id_eqb t u)
        by (destruct t, u; reflexivity).
      reflexivity.
    + rewrite IHerr, (group_err_exit g t err Ht).
      destruct (group_err g); [reflexivity|].
      destruct err; reflexivity.
Qed.

Lemma first_error_None (exits : list (task_id * option error)) :
  first_error exits = None <-> forall t e, In (t, e) exits -> e = None.
Proof.
  induction exits as [|[t [e|]] rest IH]; simpl.
  - split; [intros _ ? ? [] | reflexivity].
  - split; [discriminate|].
    intros H. exact (H t (Some e) (or_introl eq_refl)).
  - rewrite IH. split.
    + intros H u e [Heq|Hin]; [injection Heq as _ <-; reflexivity | eauto].
    + intros H u e Hin. eauto.
Qed.

Lemma Group_Wait_returns (g : Group) :
  Group_Wait g <> None <-> forall t, is_running g t = false.
Proof.
  unfold Group_Wait, is_running. destruct (running g) as [|u rest]; simpl.
  - split; [reflexivity | discriminate].
  - split; [intros H; contradiction H; reflexivity|].
    intros H. specialize (H u). rewrite task_id_eqb_refl in H. discriminate.
Qed.






(** C9: Join returns only once the three tasks have returned, what it
    returns is the first non-nil error among their returns (wrapped), and it
    returns nil exactly when the three returned nil. *)
Theorem server_Join_returns_first_error
    (streamCtxErr : option error) (exits : list (task_id * option error)) :
  NoDup (map fst exits) ->
  (server_Join streamCtxErr exits <> None <-> forall t, In t (map fst exits))
  /\ (forall r,
        server_Join streamCtxErr exits = Some r ->
        r = trace_Wrap (first_error exits) []
        /\ (r = None <-> forall t e, In (t, e) exits -> e = None)).
Proof.
  intros Hnd.
  assert (Hall : forall t, is_running (server_Join_group streamCtxErr) t = true)
    by (intros []; reflexivity).
  destruct (fold_exit_spec exits (server_Join_group streamCtxErr) Hnd
              (fun t _ => Hall t)) as [Hrun Herr].
  simpl in Herr. unfold server_Join. split.
  - transitivity
      (Group_Wait (fold_left Group_exit exits (server_Join_group streamCtxErr)) <> None).
    + destruct (Group_Wait _); split; intros H; congruence.
    + rewrite Group_Wait_returns. split.
      * intros H t. specialize (H t). rewrite Hrun, Hall in H. simpl in H.
        apply negb_false_iff in H. apply existsb_exists in H.
        destruct H as [u [Hin Heq]]. apply task_id_eqb_eq in Heq. subst u. exact Hin.
      * intros H t. rewrite Hrun, Hall. simpl. apply negb_false_iff.
        apply existsb_exists. exists t. split; [apply H | apply task_id_eqb_refl].
  - intros r. unfold Group_Wait.
    destruct (running (fold_left Group_exit exits (server_Join_group streamCtxErr)));
      [|discriminate].
    intros H. injection H as <-. rewrite Herr. split; [reflexivity|].
    rewrite <- first_error_None.
    destruct (first_error exits); simpl; split; intros H; congruence.
Qed.

(** C9 when the reader returns nil, then the writer fails, then the
    business logic returns the cancellation: Join waits for the third
    return and gives the writer's error. *)
Lemma server_Join_returns_first_error_witness :
  NoDup (map fst [(ReadTask, @None error);
                  (WriteTask, Some (TraceErr (TransportError "broken pipe")
                                      ["sending server response to stream"]));
                  (BusinessTask, Some context_Canceled)])
  /\ server_Join None [(ReadTask, None);
                       (WriteTask, Some (TraceErr (TransportError "broken pipe")
                                           ["sending server response to stream"]))]
     = None
  /\ forall r,
       server_Join None
         [(ReadTask, None);
          (WriteTask, Some (TraceErr (TransportError "broken pipe")
                              ["sending server response to stream"]));
          (BusinessTask, Some context_Canceled)]
       = Some r ->
       r = Some (TraceErr (TraceErr (TransportError "broken pipe")
                             ["sending server response to stream"]) []).
Proof.
  assert (Hnd : NoDup [ReadTask; WriteTask; BusinessTask]).
  { repeat constructor; simpl; intuition discriminate. }
  split; [exact Hnd | split; [reflexivity|]].
  intros r Hr.
  exact (proj1 (proj2 (server_Join_returns_first_error None
                         [(ReadTask, None);
                          (WriteTask, Some (TraceErr (TransportError "broken pipe")
                                              ["sending server response to stream"]));
                          (BusinessTask, Some context_Canceled)]
                         Hnd) r Hr)).
Defined.

End ServerAdapter.

(** ** Properties of the client-side adapter *)

Section ClientAdapter.

Lemma send_run_exited (err : option error) (script : list client_env) :
  send_run (SendExited err) script = (SendExited err, []).
Proof.
  induction script as [|env rest IH]; simpl; [reflexivity |].
  rewrite IH. reflexivity.
Qed.

(** Each effect of the send task is a call of [stream.Send] without a
    message. *)
Lemma send_run_effects (script : list client_env) :
  forall pc x,
    In x (snd (send_run pc script)) -> exists err, x = ClientStreamSend None err.
Proof.
  induction script as [|env rest IH]; intros pc x; cbn [send_run].
  - intros [].
  - destruct (send_step pc env) as [pc1 e1] eqn:Hstep.
    specialize (IH pc1 x).
    destruct (send_run pc1 rest) as [pc2 e2]. simpl in *.
    rewrite in_app_iff. intros [Hin|Hin]; [|exact (IH Hin)].
    unfold send_step in Hstep.
    destruct pc as [|err0]; [|injection Hstep as <- <-; destruct Hin].
    destruct (go_select _ _ _) as [|e|[req|]];
      try (injection Hstep as <- <-; destruct Hin).
    destruct (client_stream_Send env) as [e|];
      injection Hstep as <- <-; destruct Hin as [<-|[]]; eexists; reflexivity.
Qed.

Lemma Client_Join_effects (c : Client) (script : list client_env) x :
  In x (snd (Client_Join c script)) -> exists err, x = ClientStreamSend None err.
Proof.
  unfold Client_Join. destruct (grpcClient_Join c) as [e|]; [intros []|].
  pose proof (send_run_effects script SendSelect x) as H.
  destruct (send_run SendSelect script) as [pc effects]. exact H.
Qed.

(** C2: the send task of Client.Join calls [stream.Send] without the request
    it took from the channel, and returns nil on the closed channel without a
    half-close: after a ClientInit and the closure, the one effect is a Send
    with no message; after the closure alone there is no effect; and no run
    has a CloseSend. *)
Theorem Client_send_task_without_request_or_half_close :
  Client_Join (mkClient None)
    [client_moment (ChanValue (messages.Request_ClientInit
                                 (convertClientInitToMessage sample_ClientInit))) None;
     client_moment ChanClosed None]
  = (ClientTasks (SendExited None), [ClientStreamSend None None])
  /\ Client_Join (mkClient None) [client_moment ChanClosed None]
     = (ClientTasks (SendExited None), [])
  /\ (forall c script,
        existsb is_ClientCloseSend (snd (Client_Join c script)) = false)
  /\ (forall c script arg err,
        In (ClientStreamSend arg err) (snd (Client_Join c script)) ->
        arg = None).
Proof.
  split; [reflexivity | split; [reflexivity | split]].
  - intros c script.
    destruct (existsb is_ClientCloseSend (snd (Client_Join c script))) eqn:H;
      [|reflexivity].
    apply existsb_exists in H. destruct H as [x [Hin Hx]].
    apply Client_Join_effects in Hin. destruct Hin as [err ->]. discriminate.
  - intros c script arg err Hin.
    apply Client_Join_effects in Hin. destruct Hin as [err' H].
    injection H as -> _. reflexivity.
Qed.

(** C3: Client.Join starts no receive task and does not wait for its group:
    with a ServerInit sent by the server and the requests channel closed,
    nothing is read from the stream or put on the responses channel; no run
    reads the stream or delivers a response, and no run returns nil. *)
Theorem Client_Join_never_receives_or_delivers :
  Client_Join (mkClient None) [client_moment ChanClosed (Some sample_wire_ServerInit);
                    client_moment ChanClosed (Some sample_wire_ServerInit)]
  = (ClientTasks (SendExited None), [])
  /\ (forall c script,
        existsb is_ClientStreamRecv (snd (Client_Join c script)) = false
        /\ existsb is_SendOnResponses (snd (Client_Join c script)) = false)
  /\ (forall c script,
        fst (Client_Join c script) <> ClientReturned None).
Proof.
  split; [reflexivity | split].
  - intros c script. split.
    + destruct (existsb is_ClientStreamRecv (snd (Client_Join c script))) eqn:H;
        [|reflexivity].
      apply existsb_exists in H. destruct H as [x [Hin Hx]].
      apply Client_Join_effects in Hin. destruct Hin as [err ->]. discriminate.
    + destruct (existsb is_SendOnResponses (snd (Client_Join c script))) eqn:H;
        [|reflexivity].
      apply existsb_exists in H. destruct H as [x [Hin Hx]].
      apply Client_Join_effects in Hin. destruct Hin as [err ->]. discriminate.
  - intros c script. unfold Client_Join.
    destruct (grpcClient_Join c) as [e|]; simpl; [discriminate|].
    destruct (send_run SendSelect script). discriminate.
Qed.

End ClientAdapter.

(** ** Further properties of the translator *)

Section TranslatorMore.

Lemma time_Unix_in_range (sec nsec : Z) :
  (0 <= nsec < pb.billion)%Z ->
  pb.time_Unix sec nsec = messages.mkTime sec nsec.
Proof.
  intros [Hlo Hhi]. unfold pb.time_Unix.
  replace (nsec <? 0)%Z with false by (symmetry; apply Z.ltb_ge; exact Hlo).
  replace (pb.billion <=? nsec)%Z with false by (symmetry; apply Z.leb_gt; exact Hhi).
  reflexivity.
Qed.

(** X1: decoding a wire ClientInit loses nothing when its join method is set
    and its expiry is a valid timestamp: two such wire messages that decode
    to the same ClientInit are the same. *)
Theorem convertClientInitToMessage_lossless (a b : pb.ClientInit) :
  wellformed_ClientInit a ->
  wellformed_ClientInit b ->
  convertClientInitToMessage a = convertClientInitToMessage b ->
  a = b.
Proof.
  intros [Hja [ta [Hea Hna]]] [Hjb [tb [Heb Hnb]]] Heq.
  destruct a as [ja tok nn ro ap dn tk sk ea pa].
  destruct b as [jb tok' nn' ro' ap' dn' tk' sk' eb pb'].
  simpl in *. subst ea eb.
  unfold convertClientInitToMessage, pb.GetJoinMethod, pb.GetExpires,
    pb.GetProxySuppliedParameters, pb.AsTime in Heq.
  simpl in Heq.
  rewrite (time_Unix_in_range _ _ Hna), (time_Unix_in_range _ _ Hnb) in Heq.
  destruct ja as [ja|]; [|contradiction Hja; reflexivity].
  destruct jb as [jb|]; [|contradiction Hjb; reflexivity].
  destruct ta as [sa na], tb as [sb nb]. simpl in Heq.
  destruct pa as [[ra va]|], pb' as [[rb vb]|]; simpl in Heq;
    try discriminate; injection Heq; intros; subst; reflexivity.
Qed.

(** X1 at the sample ClientInit. *)
Lemma convertClientInitToMessage_lossless_witness :
  wellformed_ClientInit sample_ClientInit
  /\ sample_ClientInit = sample_ClientInit.
Proof.
  assert (Hw : wellformed_ClientInit sample_ClientInit).
  { split; [discriminate|].
    exists {| pb.Seconds := 3600; pb.Nanos := 0 |}.
    split; [reflexivity | unfold pb.billion; simpl; lia]. }
  split; [exact Hw|].
  exact (convertClientInitToMessage_lossless sample_ClientInit sample_ClientInit
           Hw Hw eq_refl).
Defined.

(** X2: what encoding a response keeps.  A ServerInit is kept whole; of a
    Result everything is kept except the SSH certificate (two Results get the
    same wire message exactly when they agree on the four other fields); and
    a ServerInit and a Result never get the same wire message. *)
Theorem convertResponseFromMessage_keeps :
  (forall a b : messages.ServerInit,
      convertResponseFromMessage (messages.Response_ServerInit a)
      = convertResponseFromMessage (messages.Response_ServerInit b)
      <-> a = b)
  /\ (forall a b : messages.Result,
      convertResponseFromMessage (messages.Response_Result a)
      = convertResponseFromMessage (messages.Response_Result b)
      <-> messages.TLSCert a = messages.TLSCert b
          /\ messages.TLSCACerts a = messages.TLSCACerts b
          /\ messages.SSHCAKeys a = messages.SSHCAKeys b
          /\ messages.HostID a = messages.HostID b)
  /\ (forall (a : messages.ServerInit) (b : messages.Result),
      convertResponseFromMessage (messages.Response_ServerInit a)
      <> convertResponseFromMessage (messages.Response_Result b)).
Proof.
  split; [|split].
  - intros [ja] [jb]. simpl. split; intros H; [injection H as ->|rewrite H]; reflexivity.
  - intros [t1 c1 s1 k1 h1] [t2 c2 s2 k2 h2]. simpl.
    unfold convertResultFromMessage. simpl. split.
    + intros H. injection H. intros. subst. tauto.
    + intros (-> & -> & -> & ->). reflexivity.
  - intros a b. simpl. discriminate.
Qed.

End TranslatorMore.

(** ** Further properties of the server-side adapter *)

Section ServerAdapterMore.

Lemma sent_requests_app (e1 e2 : list read_effect) :
  sent_requests (e1 ++ e2) = sent_requests e1 ++ sent_requests e2.
Proof.
  induction e1 as [|x rest IH]; simpl; [reflexivity|].
  destruct x; simpl; rewrite ?IH; reflexivity.
Qed.

Lemma read_step_turn (pc : read_pc) (env : server_env) :
  read_exited pc = false ->
  read_turn env pc (fst (read_step pc env)) (snd (read_step pc env)).
Proof.
  destruct pc as [|msg|err]; [| |discriminate]; intros _;
    unfold read_step, read_body.
  - destruct (stream_Recv env) as [[req err]|] eqn:Hrecv; simpl;
      [|apply rt_wait; exact Hrecv].
    destruct (errors_Is err io_EOF) eqn:Heof; simpl;
      [eapply rt_eof; eassumption|].
    destruct err as [e|]; simpl; [eapply rt_read_error; eassumption|].
    destruct (convertRequestToMessage req) as [msg|e] eqn:Hconv; simpl;
      [eapply rt_decoded | eapply rt_decode_error]; eassumption.
  - unfold go_select, send_case.
    destruct (ctx_Err env) as [e|] eqn:Hctx;
      destruct (requests_receiving env) eqn:Hr; simpl;
      try destruct (coin env); simpl;
      eauto using read_turn.
Qed.

Lemma read_reads_exited (err : option error) (script : list server_env) :
  read_reads (ReadExited err) script = [].
Proof.
  induction script as [|env rest IH]; simpl; [reflexivity | exact IH].
Qed.

Lemma read_run_forwards (script : list server_env) :
  forall pc pc' effs,
    read_exited pc = false ->
    read_run pc script = (pc', effs) ->
    exists tail,
      read_pending pc ++ flat_map decoded_read (read_reads pc script)
      = sent_requests effs ++ tail
      /\ read_tail_ok pc' tail.
Proof.
  induction script as [|env rest IH]; intros pc pc' effs Hpc.
  - simpl. intros Hr. injection Hr as <- <-.
    exists (read_pending pc). rewrite app_nil_r. split; [reflexivity|].
    destruct pc; simpl; try reflexivity. discriminate.
  - pose proof (read_step_turn pc env) as Hturn.
    cbn [read_run read_reads].
    destruct (read_step pc env) as [pc1 e1].
    cbn [fst snd] in *. specialize (Hturn Hpc).
    inversion Hturn; subst; clear Hturn;
      try match goal with Hs : stream_Recv env = _ |- _ => rewrite Hs end;
      try (rewrite read_run_exited, read_reads_exited;
           intros Hr; injection Hr as <- <-; simpl).
    + (* nothing arrived *)
      destruct (read_run ReadRecv rest) as [pc2 e2] eqn:Hrun.
      intros Hr. injection Hr as <- <-. exact (IH ReadRecv _ _ eq_refl Hrun).
    + (* end of stream *)
      destruct err as [e|]; [|discriminate].
      exists []. split; reflexivity.
    + exists []. split; [reflexivity | simpl; lia].
    + match goal with Hc : convertRequestToMessage _ = _ |- _ => rewrite Hc end.
      exists []. split; [reflexivity | simpl; lia].
    + (* decoded *)
      destruct (read_run (ReadSelect msg) rest) as [pc2 e2] eqn:Hrun.
      intros Hr. injection Hr as <- <-.
      destruct (IH (ReadSelect msg) _ _ eq_refl Hrun) as [tail [Heq Hok]].
      exists tail. split; [|exact Hok].
      cbn [flat_map decoded_read].
      match goal with Hc : convertRequestToMessage _ = _ |- _ => rewrite Hc end.
      exact Heq.
    + (* blocked in the select *)
      destruct (read_run (ReadSelect msg) rest) as [pc2 e2] eqn:Hrun.
      intros Hr. injection Hr as <- <-.
      exact (IH (ReadSelect msg) _ _ eq_refl Hrun).
    + (* context done *)
      exists [msg]. split; [reflexivity | simpl; lia].
    + (* sent *)
      destruct (read_run ReadRecv rest) as [pc2 e2] eqn:Hrun.
      intros Hr. injection Hr as <- <-.
      destruct (IH ReadRecv _ _ eq_refl Hrun) as [tail [Heq Hok]].
      exists tail. split; [|exact Hok].
      simpl in *. rewrite Heq. reflexivity.
Qed.

Lemma read_reads_arrived (script : list server_env) :
  forall pc r,
    In r (read_reads pc script) ->
    exists env, In env script /\ stream_Recv env = Some r.
Proof.
  induction script as [|env rest IH]; intros pc r; cbn [read_reads].
  - intros [].
  - destruct pc as [|msg|err]; destruct (stream_Recv env) as [r0|] eqn:Hrecv;
      try (intros Hin; destruct (IH _ _ Hin) as [env' [Hin' Hr]];
           exists env'; split; [right; exact Hin' | exact Hr]).
    intros [<-|Hin].
    + exists env. split; [left; reflexivity | exact Hrecv].
    + destruct (IH _ _ Hin) as [env' [Hin' Hr]].
      exists env'. split; [right; exact Hin' | exact Hr].
Qed.

Lemma In_sent_requests (msg : messages.Request) (effs : list read_effect) :
  In (SendOnRequests msg) effs <-> In msg (sent_requests effs).
Proof.
  induction effs as [|x rest IH]; simpl; [tauto|].
  destruct x as [m|]; simpl; rewrite <- IH; split.
  - intros [H|H]; [injection H as ->; left; reflexivity | right; exact H].
  - intros [->|H]; [left; reflexivity | right; exact H].
  - intros [H|H]; [discriminate | exact H].
  - intros H. right. exact H.
Qed.

(** X3: the read task forwards the decoded requests in the order it read
    them, each once and none skipped: the messages put on the requests
    channel are the decodings of what it read, short of the one message it
    holds in its select, or dropped there when the context was done. *)
Theorem read_task_forwards_in_order (script : list server_env)
    (pc : read_pc) (effs : list read_effect) :
  read_task script = (pc, effs) ->
  exists tail,
    flat_map decoded_read (read_reads ReadRecv script)
    = sent_requests effs ++ tail
    /\ read_tail_ok pc tail.
Proof.
  intros Hrun.
  exact (read_run_forwards script ReadRecv pc effs eq_refl Hrun).
Qed.

(** X3 on a stream with a ClientInit, forwarded, and then the end of the
    stream. *)
Lemma read_task_forwards_in_order_witness :
  read_task [arrives (Some sample_ClientInit_request) None; receiving;
             arrives None (Some io_EOF)]
  = (ReadExited None,
     [SendOnRequests
        (messages.Request_ClientInit (convertClientInitToMessage sample_ClientInit));
      CloseRequests])
  /\ exists tail,
       flat_map decoded_read
         (read_reads ReadRecv
            [arrives (Some sample_ClientInit_request) None; receiving;
             arrives None (Some io_EOF)])
       = sent_requests
           [SendOnRequests
              (messages.Request_ClientInit
                 (convertClientInitToMessage sample_ClientInit));
            CloseRequests] ++ tail
       /\ read_tail_ok (ReadExited None) tail.
Proof.
  split; [reflexivity|].
  apply (read_task_forwards_in_order
           [arrives (Some sample_ClientInit_request) None; receiving;
            arrives None (Some io_EOF)]).
  reflexivity.
Defined.

(** X4: whatever the read task puts on the requests channel is the decoding
    of a ClientInit payload that arrived on the stream without an error; the
    business logic never receives a nil request or one made up. *)
Theorem read_task_forwards_only_received_ClientInit (script : list server_env)
    (pc : read_pc) (effs : list read_effect) (msg : messages.Request) :
  read_task script = (pc, effs) ->
  In (SendOnRequests msg) effs ->
  exists env req clientInit,
    In env script
    /\ stream_Recv env = Some (req, None)
    /\ pb.GetPayload req = pb.JoinRequest_ClientInit clientInit
    /\ msg = messages.Request_ClientInit (convertClientInitToMessage clientInit).
Proof.
  intros Hrun Hin.
  destruct (read_run_forwards script ReadRecv pc effs eq_refl Hrun)
    as [tail [Heq _]].
  apply In_sent_requests in Hin.
  assert (Hdec : In msg (flat_map decoded_read (read_reads ReadRecv script)))
    by (simpl in Heq; rewrite Heq; apply in_or_app; left; exact Hin).
  apply in_flat_map in Hdec. destruct Hdec as [[req err] [Hr Hmsg]].
  destruct (read_reads_arrived _ _ _ Hr) as [env [Henv Hrecv]].
  unfold decoded_read in Hmsg.
  destruct err as [e|]; [destruct Hmsg|].
  unfold convertRequestToMessage in Hmsg.
  destruct (pb.GetPayload req) as [|clientInit|t] eqn:Hp; try destruct Hmsg.
  - exists env, req, clientInit. repeat split; try assumption.
    symmetry. assumption.
  - contradiction.
Qed.

(** X4 on the same stream. *)
Lemma read_task_forwards_only_received_ClientInit_witness :
  exists env req clientInit,
    In env [arrives (Some sample_ClientInit_request) None; receiving]
    /\ stream_Recv env = Some (req, None)
    /\ pb.GetPayload req = pb.JoinRequest_ClientInit clientInit
    /\ messages.Request_ClientInit (convertClientInitToMessage sample_ClientInit)
       = messages.Request_ClientInit (convertClientInitToMessage clientInit).
Proof.
  apply (read_task_forwards_only_received_ClientInit
           [arrives (Some sample_ClientInit_request) None; receiving]
           ReadRecv
           [SendOnRequests
              (messages.Request_ClientInit
                 (convertClientInitToMessage sample_ClientInit))]).
  - reflexivity.
  - left. reflexivity.
Defined.

Lemma read_run_nil_return (script : list server_env) :
  forall pc effs,
    read_exited pc = false ->
    read_run pc script = (ReadExited None, effs) ->
    exists env req err,
      In env script
      /\ stream_Recv env = Some (req, err)
      /\ errors_Is err io_EOF = true.
Proof.
  induction script as [|env rest IH]; intros pc effs Hpc.
  - simpl. intros Hr. injection Hr as -> _. discriminate.
  - pose proof (read_step_turn pc env Hpc) as Hturn.
    cbn [read_run].
    destruct (read_step pc env) as [pc1 e1]. cbn [fst snd] in Hturn.
    inversion Hturn; subst; clear Hturn;
      try (rewrite read_run_exited; intros Hr; injection Hr as Hr _;
           try discriminate);
      try match goal with
          | |- (let (_, _) := read_run ?pc0 rest in _) = _ -> _ =>
              let pc2 := fresh "pc2" in
              let e2 := fresh "e2" in
              let Hrun := fresh "Hrun" in
              let Hr := fresh "Hr" in
              destruct (read_run pc0 rest) as [pc2 e2] eqn:Hrun;
              intros Hr; injection Hr as -> _;
              destruct (IH pc0 e2 eq_refl Hrun) as (env0 & req0 & err0 & Hin & Hrecv);
              exists env0, req0, err0; split; [right; exact Hin | exact Hrecv]
          end.
    match goal with
    | Hs : stream_Recv env = Some (?r, ?e), He : errors_Is ?e io_EOF = true |- _ =>
        exists env, r, e; split; [left; reflexivity | split; assumption]
    end.
Qed.

(** X5: the read task returns nil only after the stream read reported the
    end of the stream; no other path ends it without an error. *)
Theorem read_task_returns_nil_only_at_EOF (script : list server_env)
    (effs : list read_effect) :
  read_task script = (ReadExited None, effs) ->
  exists env req err,
    In env script
    /\ stream_Recv env = Some (req, err)
    /\ errors_Is err io_EOF = true.
Proof.
  intros Hrun. exact (read_run_nil_return script ReadRecv effs eq_refl Hrun).
Qed.

(** X5 on a stream half-closed at once. *)
Lemma read_task_returns_nil_only_at_EOF_witness :
  exists env req err,
    In env [arrives None (Some (TraceErr io_EOF []))]
    /\ stream_Recv env = Some (req, err)
    /\ errors_Is err io_EOF = true.
Proof.
  apply (read_task_returns_nil_only_at_EOF
           [arrives None (Some (TraceErr io_EOF []))] [CloseRequests]).
  reflexivity.
Defined.

Lemma last_cons_nonempty {A} (a d : A) (l : list A) :
  l <> [] -> last (a :: l) d = last l d.
Proof. destruct l; [intros H; contradiction H; reflexivity | reflexivity]. Qed.

Lemma write_run_failed_send (script : list server_env) :
  forall pc effs msg e,
    write_run WriteSelect script = (pc, effs) ->
    In (StreamSend msg (Some e)) effs ->
    pc = WriteExited (Some (TraceErr e ["sending server response to stream"]))
    /\ last effs ResponsesClosed = StreamSend msg (Some e).
Proof.
  induction script as [|env rest IH]; intros pc effs msg e; cbn [write_run].
  - intros Hr. injection Hr as <- <-. intros [].
  - pose proof (write_step_turn env) as Hturn.
    destruct (write_step WriteSelect env) as [pc1 e1]. simpl in Hturn.
    inversion Hturn; subst; clear Hturn;
      try (rewrite write_run_exited; intros Hr; injection Hr as <- <-; simpl;
           intuition (try discriminate)).
    + destruct (write_run WriteSelect rest) as [pc2 e2] eqn:Hrun.
      intros Hr. injection Hr as <- <-. simpl. exact (IH _ _ _ _ eq_refl).
    + congruence.
    + destruct (write_run WriteSelect rest) as [pc2 e2] eqn:Hrun.
      intros Hr. injection Hr as <- <-. simpl app.
      intros [Hf|[Hf|Hin]]; try discriminate.
      destruct (IH _ _ _ _ eq_refl Hin) as [Hpc Hlast].
      split; [exact Hpc|].
      assert (Hne : e2 <> []) by (intros ->; destruct Hin).
      rewrite last_cons_nonempty by discriminate.
      rewrite last_cons_nonempty by exact Hne.
      exact Hlast.
Qed.

(** X6: the write task writes nothing after a write that failed: a failed
    [stream.Send] is the last thing it does, and what it returns is that
    error under the message "sending server response to stream". *)
Theorem write_task_stops_at_failed_send (script : list server_env)
    (pc : write_pc) (effs : list write_effect)
    (msg : pb.JoinResponse) (e : error) :
  write_task script = (pc, effs) ->
  In (StreamSend msg (Some e)) effs ->
  pc = WriteExited (Some (TraceErr e ["sending server response to stream"]))
  /\ last effs ResponsesClosed = StreamSend msg (Some e).
Proof. apply write_run_failed_send. Qed.

(** X6 on a stream that breaks at the first response, more responses
    waiting. *)
Lemma write_task_stops_at_failed_send_witness :
  write_task
    [responds (ChanValue (messages.Response_Result sample_Result))
       (Some (TransportError "broken pipe"));
     responds (ChanValue (messages.Response_Result sample_Result')) None]
  = (WriteExited (Some (TraceErr (TransportError "broken pipe")
                          ["sending server response to stream"])),
     [RecvFromResponses (messages.Response_Result sample_Result);
      StreamSend {| pb.JoinResponse_Payload :=
                      pb.JoinResponse_Result (convertResultFromMessage sample_Result) |}
        (Some (TransportError "broken pipe"))])
  /\ last [RecvFromResponses (messages.Response_Result sample_Result);
           StreamSend {| pb.JoinResponse_Payload :=
                           pb.JoinResponse_Result
                             (convertResultFromMessage sample_Result) |}
             (Some (TransportError "broken pipe"))] ResponsesClosed
     = StreamSend {| pb.JoinResponse_Payload :=
                       pb.JoinResponse_Result (convertResultFromMessage sample_Result) |}
         (Some (TransportError "broken pipe")).
Proof.
  split; [reflexivity|].
  apply (write_task_stops_at_failed_send
           [responds (ChanValue (messages.Response_Result sample_Result))
              (Some (TransportError "broken pipe"));
            responds (ChanValue (messages.Response_Result sample_Result')) None]
           (WriteExited (Some (TraceErr (TransportError "broken pipe")
                                 ["sending server response to stream"])))).
  - reflexivity.
  - right. left. reflexivity.
Defined.

Lemma write_run_error_return (script : list server_env) :
  forall effs e,
    write_run WriteSelect script = (WriteExited (Some e), effs) ->
    (exists env, In env script /\ ctx_Err env = Some e)
    \/ (exists resp e',
          In (RecvFromResponses resp) effs
          /\ convertResponseFromMessage resp = Err e'
          /\ e = TraceErr e' [])
    \/ (exists msg e',
          In (StreamSend msg (Some e')) effs
          /\ e = TraceErr e' ["sending server response to stream"]).
Proof.
  induction script as [|env rest IH]; intros effs e; cbn [write_run].
  - intros Hr. discriminate.
  - pose proof (write_step_turn env) as Hturn.
    destruct (write_step WriteSelect env) as [pc1 e1]. simpl in Hturn.
    assert (Hlift : forall e2,
              (exists env0, In env0 rest /\ ctx_Err env0 = Some e)
              \/ (exists resp e',
                    In (RecvFromResponses resp) e2
                    /\ convertResponseFromMessage resp = Err e'
                    /\ e = TraceErr e' [])
              \/ (exists msg e',
                    In (StreamSend msg (Some e')) e2
                    /\ e = TraceErr e' ["sending server response to stream"]) ->
              (exists env0, In env0 (env :: rest) /\ ctx_Err env0 = Some e)
              \/ (exists resp e',
                    In (RecvFromResponses resp) (e1 ++ e2)
                    /\ convertResponseFromMessage resp = Err e'
                    /\ e = TraceErr e' [])
              \/ (exists msg e',
                    In (StreamSend msg (Some e')) (e1 ++ e2)
                    /\ e = TraceErr e' ["sending server response to stream"])).
    { intros e2 [[env0 [Hin Hc]]|[[resp [e' [Hin Hc]]]|[msg [e' [Hin Hc]]]]].
      - left. exists env0. split; [right; exact Hin | exact Hc].
      - right. left. exists resp, e'. split; [apply in_or_app; right; exact Hin | exact Hc].
      - right. right. exists msg, e'. split; [apply in_or_app; right; exact Hin | exact Hc]. }
    inversion Hturn; subst; clear Hturn;
      try (rewrite write_run_exited; intros Hr; injection Hr as Hr <-;
           try discriminate; subst).
    + destruct (write_run WriteSelect rest) as [pc2 e2] eqn:Hrun.
      intros Hr. injection Hr as -> <-. apply Hlift. exact (IH _ _ eq_refl).
    + left. exists env. split; [left; reflexivity | assumption].
    + right. left. exists resp. eexists. split; [left; reflexivity|].
      split; [eassumption | reflexivity].
    + right. right. exists msg. eexists. split; [right; left; reflexivity | reflexivity].
    + destruct (write_run WriteSelect rest) as [pc2 e2] eqn:Hrun.
      intros Hr. injection Hr as -> <-. apply Hlift. exact (IH _ _ eq_refl).
Qed.

(** X7: a non-nil return of the write task is one of three: the error of
    the context seen done, the error of encoding a response it received, or
    the error of a failed write, the last two wrapped. *)
Theorem write_task_error_return (script : list server_env)
    (effs : list write_effect) (e : error) :
  write_task script = (WriteExited (Some e), effs) ->
  (exists env, In env script /\ ctx_Err env = Some e)
  \/ (exists resp e',
        In (RecvFromResponses resp) effs
        /\ convertResponseFromMessage resp = Err e'
        /\ e = TraceErr e' [])
  \/ (exists msg e',
        In (StreamSend msg (Some e')) effs
        /\ e = TraceErr e' ["sending server response to stream"]).
Proof. apply write_run_error_return. Qed.

(** X7 on a context cancelled while the writer waits. *)
Lemma write_task_error_return_witness :
  (exists env, In env [quiet; cancelled context_Canceled]
               /\ ctx_Err env = Some context_Canceled)
  \/ (exists resp e',
        In (RecvFromResponses resp) []
        /\ convertResponseFromMessage resp = Err e'
        /\ context_Canceled = TraceErr e' [])
  \/ (exists msg e',
        In (StreamSend msg (Some e')) []
        /\ context_Canceled = TraceErr e' ["sending server response to stream"]).
Proof.
  apply (write_task_error_return [quiet; cancelled context_Canceled] []
           context_Canceled).
  reflexivity.
Defined.

(** X9: when the business logic is the first task to return and returns an
    error, with the stream's context not done: the shared context is
    cancelled; a reader blocked in its send and a writer blocked in its
    receive return [context.Canceled] (the reader closing the requests
    channel); and Join, once the three have returned, returns the error of
    the business logic, not a cancellation. *)
Theorem business_failure_ends_the_stream
    (e readErr writeErr : error) (msg : messages.Request) (env : server_env) :
  ctx_Err env
  = group_ctx_Err (Group_exit (server_Join_group None) (BusinessTask, Some e)) ->
  requests_receiving env = false ->
  responses_state env = ChanNotReady ->
  read_step (ReadSelect msg) env = (ReadExited (Some context_Canceled), [CloseRequests])
  /\ write_step WriteSelect env = (WriteExited (Some context_Canceled), [])
  /\ server_Join None
       [(BusinessTask, Some e); (ReadTask, Some readErr); (WriteTask, Some writeErr)]
     = Some (Some (TraceErr e []))
  /\ server_Join None
       [(BusinessTask, Some e); (WriteTask, Some writeErr); (ReadTask, Some readErr)]
     = Some (Some (TraceErr e [])).
Proof.
  intros Hctx Hrecv Hst. simpl in Hctx.
  repeat split.
  - unfold read_step, read_body. rewrite Hctx, Hrecv. reflexivity.
  - unfold write_step. rewrite Hctx, Hst. reflexivity.
Qed.

(** X9 with nobody ready on either channel. *)
Lemma business_failure_ends_the_stream_witness :
  read_step (ReadSelect (messages.Request_ClientInit
                           (convertClientInitToMessage sample_ClientInit)))
    (cancelled context_Canceled)
  = (ReadExited (Some context_Canceled), [CloseRequests])
  /\ server_Join None
       [(BusinessTask, Some (TransportError "rejected"));
        (ReadTask, Some context_Canceled); (WriteTask, Some context_Canceled)]
     = Some (Some (TraceErr (TransportError "rejected") [])).
Proof.
  pose proof (business_failure_ends_the_stream
                (TransportError "rejected") context_Canceled context_Canceled
                (messages.Request_ClientInit
                   (convertClientInitToMessage sample_ClientInit))
                (cancelled context_Canceled) eq_refl eq_refl eq_refl)
    as [Hread [_ [Hjoin _]]].
  split; [exact Hread | exact Hjoin].
Defined.

End ServerAdapterMore.

(** ** Further properties of the client-side adapter *)

Section ClientAdapterMore.

Lemma send_run_returns (script : list client_env) :
  forall pc effs,
    send_run SendSelect script = (pc, effs) ->
    match pc with
    | SendSelect => forall x, In x effs -> x = ClientStreamSend None None
    | SendExited None =>
        (exists env, In env script /\ requests_state env = ChanClosed)
        /\ forall x, In x effs -> x = ClientStreamSend None None
    | SendExited (Some e) =>
        (exists env c, In env script /\ client_ctx_Err env = Some c
                       /\ e = TraceErr c [] /\
                       forall x, In x effs -> x = ClientStreamSend None None)
        \/ (exists env c, In env script /\ client_stream_Send env = Some c
                          /\ e = TraceErr c []
                          /\ last effs ClientCloseSend = ClientStreamSend None (Some c))
    end.
Proof.
  induction script as [|env rest IH]; intros pc effs; cbn [send_run].
  - intros Hr. injection Hr as <- <-. intros x [].
  - unfold send_step at 1. unfold go_select.
    destruct (client_ctx_Err env) as [c|] eqn:Hctx;
      destruct (requests_state env) as [|req|] eqn:Hst; simpl recv_case; cbv iota beta;
      try destruct (client_coin env); cbv iota beta;
      try destruct (client_stream_Send env) as [se|] eqn:Hsend; cbv iota beta;
      try (rewrite send_run_exited; intros Hr; injection Hr as <- <-; simpl);
      try (destruct (send_run SendSelect rest) as [pc2 e2] eqn:Hrun;
           intros Hr; injection Hr as <- <-;
           specialize (IH _ _ eq_refl); simpl app).
    all: try (left; exists env, c; repeat split;
              [left; reflexivity | assumption | intros x []]).
    all: try (right; exists env, se; repeat split;
              [left; reflexivity | assumption]).
    all: try (split; [exists env; split; [left; reflexivity | assumption]
                     | intros x []]).
    all: try (destruct pc2 as [|[e|]];
              [ exact IH
              | destruct IH as [(env' & c' & Hin & Hc & He & Hall)
                               |(env' & c' & Hin & Hc & He & Hlast)];
                [ left; exists env', c'; repeat split;
                  [right; exact Hin | exact Hc | exact He | exact Hall]
                | right; exists env', c'; repeat split;
                  [right; exact Hin | exact Hc | exact He | exact Hlast] ]
              | destruct IH as [(env' & Hin & Hc) Hall];
                split; [exists env'; split; [right; exact Hin | exact Hc]
                       | exact Hall] ]).
    all: destruct pc2 as [|[e|]].
    all: try (intros x [<-|Hin]; [reflexivity | apply IH; exact Hin]).
    all: try (destruct IH as [(env' & Hin & Hc) Hall];
              split; [exists env'; split; [right; exact Hin | exact Hc]|];
              intros x [<-|Hx]; [reflexivity | apply Hall; exact Hx]).
    all: destruct IH as [(env' & c' & Hin & Hc & He & Hall)
                        |(env' & c' & Hin & Hc & He & Hlast)];
      [ left; exists env', c'; repeat split;
        [right; exact Hin | exact Hc | exact He |];
        intros x [<-|Hx]; [reflexivity | apply Hall; exact Hx]
      | right; exists env', c'; repeat split;
        [right; exact Hin | exact Hc | exact He |];
        destruct e2 as [|y e2]; [discriminate Hlast | exact Hlast] ].
Qed.

(** X10: the send task of Client.Join returns nil only after its receive
    found the requests channel closed, and then each of its calls of
    [stream.Send] returned nil. *)
Theorem send_task_returns_nil_only_at_closure (c : Client)
    (script : list client_env) (effs : list client_effect) :
  Client_Join c script = (ClientTasks (SendExited None), effs) ->
  (exists env, In env script /\ requests_state env = ChanClosed)
  /\ forall x, In x effs -> x = ClientStreamSend None None.
Proof.
  unfold Client_Join. destruct (grpcClient_Join c) as [e|]; [discriminate|].
  destruct (send_run SendSelect script) as [pc effs'] eqn:Hrun.
  intros Hr. injection Hr as -> <-.
  exact (send_run_returns script _ _ Hrun).
Qed.

(** X10 on a caller that sends one request and closes the channel. *)
Lemma send_task_returns_nil_only_at_closure_witness :
  (exists env,
      In env [client_moment (ChanValue messages.Request_nil) None;
              client_moment ChanClosed None]
      /\ requests_state env = ChanClosed)
  /\ forall x, In x [ClientStreamSend None None] -> x = ClientStreamSend None None.
Proof.
  apply (send_task_returns_nil_only_at_closure (mkClient None)
           [client_moment (ChanValue messages.Request_nil) None;
            client_moment ChanClosed None]).
  reflexivity.
Defined.

(** X11: a non-nil return of the send task is the wrapped error of the
    context seen done, or the wrapped error of a call of [stream.Send] that
    failed, and that call is then the last thing the task did. *)
Theorem send_task_error_return (c : Client)
    (script : list client_env) (effs : list client_effect) (e : error) :
  Client_Join c script = (ClientTasks (SendExited (Some e)), effs) ->
  (exists env ctxErr,
      In env script /\ client_ctx_Err env = Some ctxErr /\ e = TraceErr ctxErr [])
  \/ (exists env sendErr,
        In env script /\ client_stream_Send env = Some sendErr
        /\ e = TraceErr sendErr []
        /\ last effs ClientCloseSend = ClientStreamSend None (Some sendErr)).
Proof.
  unfold Client_Join. destruct (grpcClient_Join c) as [e0|]; [discriminate|].
  destruct (send_run SendSelect script) as [pc effs'] eqn:Hrun.
  intros Hr. injection Hr as -> <-.
  pose proof (send_run_returns script _ _ Hrun) as H. simpl in H.
  destruct H as [(env & x & Hin & Hc & He & _)|(env & x & Hin & Hc & He & Hlast)].
  - left. exists env, x. auto.
  - right. exists env, x. auto.
Qed.

(** X11 on a stream that breaks at the first request. *)
Lemma send_task_error_return_witness :
  (exists env ctxErr,
      In env [mkClientEnv None (ChanValue messages.Request_nil)
                (Some (TransportError "broken pipe")) None false]
      /\ client_ctx_Err env = Some ctxErr
      /\ TraceErr (TransportError "broken pipe") [] = TraceErr ctxErr [])
  \/ (exists env sendErr,
        In env [mkClientEnv None (ChanValue messages.Request_nil)
                  (Some (TransportError "broken pipe")) None false]
        /\ client_stream_Send env = Some sendErr
        /\ TraceErr (TransportError "broken pipe") [] = TraceErr sendErr []
        /\ last [ClientStreamSend None (Some (TransportError "broken pipe"))]
             ClientCloseSend
           = ClientStreamSend None (Some sendErr)).
Proof.
  apply (send_task_error_return (mkClient None)
           [mkClientEnv None (ChanValue messages.Request_nil)
              (Some (TransportError "broken pipe")) None false]).
  reflexivity.
Defined.

End ClientAdapterMore.

(** ** Properties of the benchmark finder *)

Section BenchFind.

Import benchfind.

Lemma seen_has_In (seen : list string) (x : string) :
  seen_has seen x = true <-> In x seen.
Proof.
  unfold seen_has. rewrite existsb_exists. split.
  - intros [y [Hin Heq]]. apply String.eqb_eq in Heq. subst. exact Hin.
  - intros Hin. exists x. split; [exact Hin | apply String.eqb_refl].
Qed.

Lemma first_occurrences_In (l : list string) :
  forall seen x,
    In x (first_occurrences seen l) <-> In x l /\ seen_has seen x = false.
Proof.
  induction l as [|y rest IH]; intros seen x; simpl.
  - tauto.
  - destruct (seen_has seen y) eqn:Hy.
    + rewrite IH. split.
      * intros [Hin Hx]. tauto.
      * intros [[->|Hin] Hx]; [congruence | tauto].
    + simpl. rewrite IH. unfold seen_has at 2. simpl.
      destruct (String.eqb x y) eqn:Hxy; simpl.
      * apply String.eqb_eq in Hxy. subst y. split; [intros _|left; reflexivity].
        split; [left; reflexivity | exact Hy].
      * apply String.eqb_neq in Hxy. fold (seen_has seen x). split.
        -- intros [->|[Hin Hx]]; [contradiction Hxy; reflexivity | tauto].
        -- intros [[->|Hin] Hx]; [contradiction Hxy; reflexivity | tauto].
Qed.

Lemma first_occurrences_NoDup (l : list string) :
  forall seen, NoDup (first_occurrences seen l).
Proof.
  induction l as [|y rest IH]; intros seen; simpl; [constructor|].
  destruct (seen_has seen y) eqn:Hy; [apply IH|].
  constructor; [|apply IH].
  rewrite first_occurrences_In. intros [_ H].
  unfold seen_has in H. simpl in H. rewrite String.eqb_refl in H. discriminate.
Qed.

(** The loop of Find computes the first occurrences of the candidates. *)
Lemma visit_post_fold (cfg : Config) (pkgs : list Package) :
  forall seen result,
    snd (fold_left (visit_post cfg) pkgs (seen, result))
    = result ++ first_occurrences seen (candidates cfg pkgs).
Proof.
  induction pkgs as [|p rest IH]; intros seen result.
  - simpl. rewrite app_nil_r. reflexivity.
  - cbn [fold_left]. unfold candidates. cbn [filter].
    unfold visit_post at 2.
    destruct (matchesAnyPrefix (trimmed_path p) (Excludes cfg)); simpl negb;
      cbn [andb]; [apply IH|].
    destruct (hasBenchmark p); [|apply IH].
    cbn [map first_occurrences].
    destruct (seen_has seen (trimmed_path p)); [apply IH|].
    rewrite IH, <- app_assoc. reflexivity.
Qed.

Lemma Find_Ok (api : packages_api) (cfg : Config) (result : list string) :
  Find api cfg = Ok result ->
  exists pkgs loadCfg patterns,
    Load api loadCfg patterns = Ok pkgs
    /\ PrintErrors api pkgs = 0%nat
    /\ result = first_occurrences [] (candidates cfg (Visit api pkgs)).
Proof.
  unfold Find. intros H.
  match type of H with
  | match Load api ?c ?ps with _ => _ end = _ =>
      destruct (Load api c ps) as [pkgs|err] eqn:Hload; [|discriminate];
      exists pkgs, c, ps
  end.
  destruct (PrintErrors api pkgs) as [|n] eqn:Hn; simpl in H; [|discriminate].
  injection H as <-.
  split; [exact Hload | split; [reflexivity|]].
  rewrite visit_post_fold. reflexivity.
Qed.

Lemma candidates_In (cfg : Config) (pkgs : list Package) (path : string) :
  In path (candidates cfg pkgs)
  <-> exists p, In p pkgs
                /\ trimmed_path p = path
                /\ matchesAnyPrefix path (Excludes cfg) = false
                /\ hasBenchmark p = true.
Proof.
  unfold candidates. rewrite in_map_iff. split.
  - intros [p [Hpath Hin]]. apply filter_In in Hin. destruct Hin as [Hin Hk].
    apply andb_true_iff in Hk. destruct Hk as [Hex Hb].
    apply negb_true_iff in Hex. subst path.
    exists p. tauto.
  - intros [p [Hin [Hpath [Hex Hb]]]]. exists p. split; [exact Hpath|].
    apply filter_In. split; [exact Hin|].
    rewrite Hpath, Hex, Hb. reflexivity.
Qed.

(** X12: when Find succeeds, the load succeeded without printed errors, no
    path is reported twice, and a path is reported exactly when it is the
    trimmed path of a visited package that has a benchmark and no excluded
    prefix. *)
Theorem Find_reports_each_benchmark_package_once
    (api : packages_api) (cfg : Config) (result : list string) :
  Find api cfg = Ok result ->
  exists pkgs loadCfg patterns,
    Load api loadCfg patterns = Ok pkgs
    /\ PrintErrors api pkgs = 0%nat
    /\ NoDup result
    /\ forall path,
         In path result
         <-> exists p, In p (Visit api pkgs)
                       /\ trimmed_path p = path
                       /\ matchesAnyPrefix path (Excludes cfg) = false
                       /\ hasBenchmark p = true.
Proof.
  intros H. destruct (Find_Ok api cfg result H) as (pkgs & c & ps & Hl & Hn & ->).
  exists pkgs, c, ps. split; [exact Hl | split; [exact Hn | split]].
  - apply first_occurrences_NoDup.
  - intros path. rewrite first_occurrences_In, candidates_In.
    unfold seen_has. simpl. tauto.
Qed.

(** X13: Find reports the paths in the order in which Visit reaches the
    packages, each at its first occurrence. *)
Theorem Find_keeps_visit_order
    (api : packages_api) (cfg : Config) (result : list string) :
  Find api cfg = Ok result ->
  exists pkgs loadCfg patterns,
    Load api loadCfg patterns = Ok pkgs
    /\ result = first_occurrences [] (candidates cfg (Visit api pkgs)).
Proof.
  intros H. destruct (Find_Ok api cfg result H) as (pkgs & c & ps & Hl & _ & ->).
  exists pkgs, c, ps. split; [exact Hl | reflexivity].
Qed.

Lemma HasPrefix_empty (path : string) : HasPrefix path "" = true.
Proof. unfold HasPrefix. destruct path; reflexivity. Qed.

Lemma matchesAnyPrefix_iff (path : string) (prefixes : list string) :
  matchesAnyPrefix path prefixes = true
  <-> exists p, In p prefixes /\ HasPrefix path p = true.
Proof.
  induction prefixes as [|q rest IH]; simpl.
  - split; [discriminate | intros [p [[] _]]].
  - destruct (HasPrefix path q) eqn:Hq.
    + split; [intros _; exists q; tauto | reflexivity].
    + rewrite IH. split.
      * intros [p [Hin Hp]]. exists p. tauto.
      * intros [p [[->|Hin] Hp]]; [congruence | exists p; tauto].
Qed.

(** X14: an empty string among the excluded prefixes excludes every
    package: Find then reports nothing. *)
Theorem Find_with_empty_exclude_reports_nothing
    (api : packages_api) (cfg : Config) (result : list string) :
  In "" (Excludes cfg) ->
  Find api cfg = Ok result ->
  result = [].
Proof.
  intros Hex H.
  destruct (Find_Ok api cfg result H) as (pkgs & c & ps & _ & _ & ->).
  assert (Hc : candidates cfg (Visit api pkgs) = []).
  { destruct (candidates cfg (Visit api pkgs)) as [|path rest] eqn:Hcand;
      [reflexivity|].
    assert (Hin : In path (candidates cfg (Visit api pkgs)))
      by (rewrite Hcand; left; reflexivity).
    apply candidates_In in Hin. destruct Hin as (p & _ & _ & Hno & _).
    assert (Hyes : matchesAnyPrefix path (Excludes cfg) = true).
    { apply matchesAnyPrefix_iff. exists "". split; [exact Hex | apply HasPrefix_empty]. }
    congruence. }
  rewrite Hc. reflexivity.
Qed.

(** X12 on the sample packages, the generated ones excluded. *)
Lemma Find_reports_each_benchmark_package_once_witness :
  Find sample_packages_api (sample_Config ["example.com/gen/"])
  = Ok ["example.com/a"]
  /\ exists pkgs loadCfg patterns,
       Load sample_packages_api loadCfg patterns = Ok pkgs
       /\ PrintErrors sample_packages_api pkgs = 0%nat
       /\ NoDup ["example.com/a"]
       /\ forall path,
            In path ["example.com/a"]
            <-> exists p, In p (Visit sample_packages_api pkgs)
                          /\ trimmed_path p = path
                          /\ matchesAnyPrefix path
                               (Excludes (sample_Config ["example.com/gen/"])) = false
                          /\ hasBenchmark p = true.
Proof.
  split; [reflexivity|].
  apply (Find_reports_each_benchmark_package_once sample_packages_api
           (sample_Config ["example.com/gen/"])).
  reflexivity.
Defined.

(** X13 on the sample packages, nothing excluded. *)
Lemma Find_keeps_visit_order_witness :
  Find sample_packages_api (sample_Config [])
  = Ok ["example.com/a"; "example.com/gen/b"]
  /\ exists pkgs loadCfg patterns,
       Load sample_packages_api loadCfg patterns = Ok pkgs
       /\ ["example.com/a"; "example.com/gen/b"]
          = first_occurrences []
              (candidates (sample_Config []) (Visit sample_packages_api pkgs)).
Proof.
  split; [reflexivity|].
  apply (Find_keeps_visit_order sample_packages_api (sample_Config [])).
  reflexivity.
Defined.

(** X14 on the sample packages. *)
Lemma Find_with_empty_exclude_reports_nothing_witness :
  In "" (Excludes (sample_Config ["example.com/gen/"; ""]))
  /\ Find sample_packages_api (sample_Config ["example.com/gen/"; ""]) = Ok [].
Proof.
  assert (Hin : In "" (Excludes (sample_Config ["example.com/gen/"; ""])))
    by (right; left; reflexivity).
  split; [exact Hin|].
  destruct (Find sample_packages_api (sample_Config ["example.com/gen/"; ""]))
    as [result|err] eqn:Hfind; [|discriminate Hfind].
  rewrite (Find_with_empty_exclude_reports_nothing sample_packages_api
             (sample_Config ["example.com/gen/"; ""]) result Hin Hfind).
  reflexivity.
Defined.

Lemma fileHasBenchmark_loop_iff (decls : list Decl) :
  fileHasBenchmark_loop decls = true
  <-> exists fn, In (Decl_FuncDecl fn) decls
                 /\ Recv fn = None /\ isBenchmark fn = true.
Proof.
  induction decls as [|decl rest IH]; simpl.
  - split; [discriminate | intros [fn [[] _]]].
  - destruct decl as [fn|].
    + destruct (Recv fn) as [r|] eqn:Hrecv.
      * rewrite IH. split.
        -- intros [fn' [Hin H]]. exists fn'. tauto.
        -- intros [fn' [[Heq|Hin] [Hr Hb]]];
             [injection Heq as <-; congruence | exists fn'; tauto].
      * destruct (isBenchmark fn) eqn:Hb.
        -- split; [intros _; exists fn; tauto | reflexivity].
        -- rewrite IH. split.
           ++ intros [fn' [Hin H]]. exists fn'. tauto.
           ++ intros [fn' [[Heq|Hin] [Hr Hb']]];
                [injection Heq as <-; congruence | exists fn'; tauto].
    + rewrite IH. split.
      * intros [fn' [Hin H]]. exists fn'. tauto.
      * intros [fn' [[Heq|Hin] H]]; [discriminate | exists fn'; tauto].
Qed.

(** X15: a package has a benchmark exactly when one of its files declares a
    function without a receiver that isBenchmark accepts; a method never
    makes a package count, whatever its name and parameters. *)
Theorem hasBenchmark_iff_top_level_benchmark (pkg : Package) :
  hasBenchmark pkg = true
  <-> exists file fn,
        In file (Syntax pkg)
        /\ In (Decl_FuncDecl fn) (Decls file)
        /\ Recv fn = None
        /\ isBenchmark fn = true.
Proof.
  unfold hasBenchmark. rewrite existsb_exists. split.
  - intros [file [Hin Hf]]. apply fileHasBenchmark_loop_iff in Hf.
    destruct Hf as [fn H]. exists file, fn. tauto.
  - intros [file [fn [Hin H]]]. exists file. split; [exact Hin|].
    apply fileHasBenchmark_loop_iff. exists fn. exact H.
Qed.

(** X16: isBenchmark accepts a function exactly when its name begins with
    "Benchmark" and it has one parameter field whose type is a pointer to a
    selector expression ending in B; neither the package named before B nor
    the names (or their number) in the field are looked at. *)
Theorem isBenchmark_iff (fn : FuncDecl) :
  isBenchmark fn = true
  <-> exists name type names X sel,
        FuncDecl_Name fn = Some name
        /\ HasPrefix (Ident_Name name) "Benchmark" = true
        /\ FuncDecl_Type fn = Some type
        /\ Params type = Some (mkFieldList [mkField names (StarExpr (SelectorExpr X sel))])
        /\ Ident_Name sel = "B".
Proof.
  unfold isBenchmark. split.
  - destruct (FuncDecl_Name fn) as [name|]; [|discriminate].
    destruct (HasPrefix (Ident_Name name) "Benchmark") eqn:Hp; simpl; [|discriminate].
    destruct (FuncDecl_Type fn) as [type|]; [|discriminate].
    destruct (Params type) as [[fields]|] eqn:Hps; [|discriminate]. simpl.
    destruct fields as [|[names ty] [|]]; try discriminate. simpl.
    destruct ty as [| star_X | |]; try discriminate.
    destruct star_X as [| | X sel |]; try discriminate.
    intros Hb. apply String.eqb_eq in Hb.
    exists name, type, names, X, sel. repeat split; assumption.
  - intros (name & type & names & X & sel & -> & -> & -> & -> & Hb).
    simpl. rewrite Hb. reflexivity.
Qed.

Lemma string_length_append (s t : string) :
  String.length (s ++ t)%string = (String.length s + String.length t)%nat.
Proof. induction s as [|a s IH]; simpl; [reflexivity | rewrite IH; reflexivity]. Qed.

Lemma substring_whole (s : string) : substring 0 (String.length s) s = s.
Proof. induction s as [|a s IH]; simpl; [reflexivity | rewrite IH; reflexivity]. Qed.

Lemma substring_append_left (s t : string) :
  substring 0 (String.length s) (s ++ t)%string = s.
Proof.
  induction s as [|a s IH]; simpl.
  - destruct t; reflexivity.
  - rewrite IH. reflexivity.
Qed.

Lemma substring_append_right (s t : string) :
  substring (String.length s) (String.length t) (s ++ t)%string = t.
Proof.
  induction s as [|a s IH]; simpl; [apply substring_whole | exact IH].
Qed.

Lemma string_append_assoc (s t u : string) :
  ((s ++ t) ++ u)%string = (s ++ (t ++ u))%string.
Proof. induction s as [|a s IH]; simpl; [reflexivity | rewrite IH; reflexivity]. Qed.

Lemma suffix_start (s t : string) :
  (String.length (s ++ t)%string - String.length t)%nat = String.length s.
Proof. rewrite string_length_append. lia. Qed.

Lemma HasSuffix_append (s t : string) : HasSuffix (s ++ t)%string t = true.
Proof.
  unfold HasSuffix. rewrite suffix_start, substring_append_right, String.eqb_refl.
  rewrite string_length_append.
  replace (String.length t <=? String.length s + String.length t)%nat with true
    by (symmetry; apply Nat.leb_le; lia).
  reflexivity.
Qed.

Lemma TrimSuffix_append (s t : string) : TrimSuffix (s ++ t)%string t = s.
Proof.
  unfold TrimSuffix. rewrite HasSuffix_append, suffix_start.
  apply substring_append_left.
Qed.

(** A string that ends in [t'] does not end in another string [t] of the
    same length. *)
Lemma HasSuffix_other (s t t' : string) :
  String.length t = String.length t' -> t <> t' ->
  HasSuffix (s ++ t')%string t = false.
Proof.
  intros Hlen Hne. unfold HasSuffix.
  rewrite Hlen, suffix_start, substring_append_right.
  replace (String.eqb t' t) with false
    by (symmetry; apply String.eqb_neq; congruence).
  apply andb_false_r.
Qed.

(** X17: a package, its external test package (path with "_test") and
    their test binaries (path with ".test") are reported under one path:
    the path Find uses for "x_test" and for "x_test.test" is "x", and for
    "x.test" it is "x" without a "_test" at its end. *)
Theorem trimmed_path_of_test_variants (x : string) (files : list File) :
  trimmed_path (mkPackage (x ++ "_test") files) = x
  /\ trimmed_path (mkPackage (x ++ "_test.test") files) = x
  /\ trimmed_path (mkPackage (x ++ ".test") files) = TrimSuffix x "_test".
Proof.
  unfold trimmed_path. simpl PkgPath.
  assert (H1 : TrimSuffix (TrimSuffix (x ++ "_test") ".test") "_test" = x).
  { unfold TrimSuffix at 2.
    rewrite (HasSuffix_other x ".test" "_test") by (reflexivity || discriminate).
    apply TrimSuffix_append. }
  split; [exact H1 | split].
  - change (x ++ "_test.test")%string with (x ++ ("_test" ++ ".test"))%string.
    rewrite <- string_append_assoc, TrimSuffix_append.
    apply TrimSuffix_append.
  - rewrite TrimSuffix_append. reflexivity.
Qed.

End BenchFind.

(** ** Properties of the Kubernetes server handlers *)

Section KubeServer.

Import resources.

Variable FilterByNameOrDiscoveredName :
  list KubeServer -> string -> (KubeServer -> string) -> list KubeServer.
Variable GetOneResourceNameToDelete :
  list KubeServer -> Ref -> string -> result string.
Variable UnmarshalKubeServer : bytes -> result KubeServer.

(** X18: a collection that getKubeServer returns holds every server the
    client returned when the reference has no name (even none at all), and
    otherwise the servers the filter kept for that name, of which there is at
    least one: with a name it never returns an empty collection. *)
Theorem getKubeServer_collection (client : Client) (ref : Ref)
    (servers : list KubeServer) (calls : list call) :
  getKubeServer FilterByNameOrDiscoveredName client ref = (inl servers, calls) ->
  exists all,
    GetKubernetesServers client = Ok all
    /\ calls = [Call_GetKubernetesServers]
    /\ ((Ref_Name ref = "" /\ servers = all)
        \/ (Ref_Name ref <> ""
            /\ servers = FilterByNameOrDiscoveredName all (Ref_Name ref) altNameFn
            /\ servers <> [])).
Proof.
  unfold getKubeServer.
  destruct (GetKubernetesServers client) as [all|err]; [|discriminate].
  destruct (String.eqb (Ref_Name ref) "") eqn:Hname.
  - intros H. injection H as <- <-. apply String.eqb_eq in Hname.
    exists all. auto.
  - apply String.eqb_neq in Hname. cbv zeta.
    destruct (FilterByNameOrDiscoveredName all (Ref_Name ref) altNameFn)
      as [|s rest] eqn:Hf; [discriminate|].
    intros H. injection H as <- <-.
    exists all. split; [reflexivity | split; [reflexivity | right]].
    rewrite Hf. repeat split; [exact Hname | discriminate].
Qed.





End KubeServer.

(** X18 with the name of two of the three sample servers. *)
Lemma getKubeServer_collection_witness :
  resources.getKubeServer sample_filter sample_kube_client (resources.mkRef "kube-1")
  = (inl [resources.mkKubeServer "kube-1" "node-1" "host-1";
          resources.mkKubeServer "kube-1" "node-3" "host-3"],
     [resources.Call_GetKubernetesServers])
  /\ exists all,
       resources.GetKubernetesServers sample_kube_client = Ok all
       /\ [resources.Call_GetKubernetesServers] = [resources.Call_GetKubernetesServers]
       /\ ((resources.Ref_Name (resources.mkRef "kube-1") = ""
            /\ [resources.mkKubeServer "kube-1" "node-1" "host-1";
                resources.mkKubeServer "kube-1" "node-3" "host-3"] = all)
           \/ (resources.Ref_Name (resources.mkRef "kube-1") <> ""
               /\ [resources.mkKubeServer "kube-1" "node-1" "host-1";
                   resources.mkKubeServer "kube-1" "node-3" "host-3"]
                  = sample_filter all (resources.Ref_Name (resources.mkRef "kube-1"))
                      resources.altNameFn
               /\ [resources.mkKubeServer "kube-1" "node-1" "host-1";
                   resources.mkKubeServer "kube-1" "node-3" "host-3"] <> [])).
Proof.
  split; [reflexivity|].
  apply (getKubeServer_collection sample_filter sample_kube_client
           (resources.mkRef "kube-1")).
  reflexivity.
Defined.


